(** * bittensor keyfile: a shallow embedding of [bittensor/keyfile.py]

    The development follows the Python module function by function.

    - Python [bytes] are [list byte]; a Python [str] is the Rocq [string]
      holding its UTF-8 encoding, so [str.encode()] is the identity on the
      underlying bytes and [bytes.decode()] succeeds exactly on well-formed
      UTF-8.
    - Exceptions are values of [exn]; a call either returns or raises
      ([result]).
    - Everything the module reaches outside itself (console, environment
      variables, the file system, the random source of the vault cipher) lives
      in [world], threaded through the monad [M].  An exception leaves the
      world as it was when it was raised.
    - The third-party libraries (ansible-vault, cryptography, json,
      password_strength, the ss58 encoder and the Keypair constructors) are
      fields of the record [Libs], and so is the case mapping of
      [str.upper()], which lives in the interpreter's Unicode tables: every
      statement holds whatever these functions are, unless it names what it
      assumes of them. *)

From Stdlib Require Import ZArith Strings.String Strings.Ascii Strings.Byte.
From stdpp Require Import base decidable option list strings gmap.

Local Open Scope string_scope.
Local Open Scope list_scope.
Set Warnings "-register-all".

(* ------------------------------------------------------------------------- *)
(** ** Bytes and text *)

Abbreviation bytes := (list byte).

#[global] Instance byte_eq_dec : EqDecision byte := Byte.byte_eq_dec.

(** A bytes literal [b"..."]. *)
Definition b (s : string) : bytes := list_byte_of_string s.

(** [str.encode()] (UTF-8). *)
Definition encode (s : string) : bytes := list_byte_of_string s.

Definition byte_val (x : byte) : N := Byte.to_N x.

Definition in_range (lo hi : N) (x : byte) : bool :=
  (lo <=? byte_val x)%N && (byte_val x <=? hi)%N.

Definition is_cont (x : byte) : bool := in_range 128 191 x.

(** Well-formed UTF-8 (the table of RFC 3629, which the strict codec of
    [bytes.decode()] implements: no overlong forms, no surrogates, nothing
    above U+10FFFF).  [k] continuation bytes are still owed. *)
Fixpoint utf8_conts (k : nat) (l : bytes) : option bytes :=
  match k with
  | O => Some l
  | S k' => match l with
            | x :: l' => if is_cont x then utf8_conts k' l' else None
            | [] => None
            end
  end.

Definition utf8_step (l : bytes) : option bytes :=
  match l with
  | [] => None
  | x :: l1 =>
    if in_range 0 127 x then Some l1
    else if in_range 194 223 x then utf8_conts 1 l1
    else if in_range 224 239 x then
      match l1 with
      | y :: l2 =>
        let lo := if (byte_val x =? 224)%N then 160%N else 128%N in
        let hi := if (byte_val x =? 237)%N then 159%N else 191%N in
        if in_range lo hi y then utf8_conts 1 l2 else None
      | [] => None
      end
    else if in_range 240 244 x then
      match l1 with
      | y :: l2 =>
        let lo := if (byte_val x =? 240)%N then 144%N else 128%N in
        let hi := if (byte_val x =? 244)%N then 143%N else 191%N in
        if in_range lo hi y then utf8_conts 2 l2 else None
      | [] => None
      end
    else None
  end.

Fixpoint utf8_valid_fuel (fuel : nat) (l : bytes) : bool :=
  match l with
  | [] => true
  | _ :: _ =>
    match fuel with
    | O => false
    | S fuel' => match utf8_step l with
                 | Some l' => utf8_valid_fuel fuel' l'
                 | None => false
                 end
    end
  end.

(** Every step consumes at least one byte, so [length l] steps are enough. *)
Definition utf8_valid (l : bytes) : bool := utf8_valid_fuel (length l) l.

(* ------------------------------------------------------------------------- *)
(** ** Format detection (keyfile.py, lines 133-158) *)

(** [keyfile_data[:14] == b'$ANSIBLE_VAULT'] *)
Definition keyfile_data_is_encrypted_ansible (keyfile_data : bytes) : bool :=
  bool_decide (take 14 keyfile_data = b "$ANSIBLE_VAULT").

(** [keyfile_data[:6] == b"gAAAAA"] *)
Definition keyfile_data_is_encrypted_legacy (keyfile_data : bytes) : bool :=
  bool_decide (take 6 keyfile_data = b "gAAAAA").

Definition keyfile_data_is_encrypted (keyfile_data : bytes) : bool :=
  keyfile_data_is_encrypted_ansible keyfile_data
  || keyfile_data_is_encrypted_legacy keyfile_data.

(** The three formats, in the order in which the [if]/[elif]/[else] of
    [decrypt_keyfile_data] (lines 211, 218, 225) tells them apart. *)
Inductive keyfile_format := Vault | Legacy | Plaintext.

#[global] Instance keyfile_format_eq_dec : EqDecision keyfile_format.
Proof. solve_decision. Defined.

Definition classify (keyfile_data : bytes) : keyfile_format :=
  if keyfile_data_is_encrypted_ansible keyfile_data then Vault
  else if keyfile_data_is_encrypted_legacy keyfile_data then Legacy
  else Plaintext.

(* ------------------------------------------------------------------------- *)
(** ** Python values that cross the module's boundary *)

(** A [float] by its value: the zeros of both signs, the finite values
    [±m·2^e], the infinities, and not-a-number. *)
Inductive pyfloat :=
| FZero (negative : bool)
| FFinite (negative : bool) (m : positive) (e : Z)
| FInf (negative : bool)
| FNaN.

(** What [json.loads] returns and [json.dumps] accepts: an [int] is kept
    exactly, a [float] by its value, an object as its members in the order
    of the text. *)
Inductive json :=
| JNull
| JBool (v : bool)
| JInt (n : Z)
| JFloat (x : pyfloat)
| JStr (s : string)
| JArr (items : list json)
| JObj (members : list (string * json)).

(** What a decrypt call hands back: [bytes], or a parsed document. *)
Inductive pyobj :=
| PBytes (data : bytes)
| PJson (j : json).

(** The attributes of [bittensor.Keypair] the module reads. *)
Record Keypair := mkKeypair {
  public_key : option bytes;
  private_key : option bytes;
  mnemonic : option string;
  seed_hex : option (string + bytes);
  ss58_address : option string
}.

(** A Python dict as its items in insertion order, keys unique. *)
Abbreviation pydict := (list (json * json)).

(** The messages of [KeyFileError], with the value formatted into each. *)
Inductive keyfile_msg :=
| InvalidPassword                      (* 'Invalid password' *)
| DataCorrupt (keyfile_data : bytes)   (* "keyfile data: {} is corrupt" *)
| NoKeypairFromText (s : string)       (* 'Keypair could not be created from keyfile data: {}', a str *)
| NoKeypairFromDict (d : pydict)       (* the same message, a dict *)
| DoesNotExist (path : string)         (* "Keyfile at: {} does not exist" *)
| NotReadable (path : string)          (* "Keyfile at: {} is not readable" *)
| NotWritable (path : string).         (* "Keyfile at: {} is not writable" *)

Inductive exn :=
| KeyFileError (msg : keyfile_msg)
| AnsibleVaultError        (* ansible.parsing.vault.AnsibleVaultError and its subclasses *)
| AnsibleVaultFormatError  (* an AnsibleError of the same module, not an AnsibleVaultError *)
| InvalidSignature
| InvalidKey
| InvalidToken
| UnicodeDecodeError
| EOFError
| FileNotFoundError
| FileExistsError
| NotADirectoryError
| IsADirectoryError
| PermissionError
| OutOfFuel   (* not a Python exception: the bound of a modelled loop, never reached *)
| OtherError (name : string).

Inductive result (A : Type) :=
| Ok (a : A)
| Raise (e : exn).
Arguments Ok {A} a.
Arguments Raise {A} e.

#[global] Instance result_ret : MRet result := @Ok.
#[global] Instance result_bind : MBind result :=
  λ A B k r, match r with Ok a => k a | Raise e => Raise e end.

(** [bytes.decode()] *)
Definition decode (data : bytes) : result string :=
  if utf8_valid data then Ok (string_of_list_byte data) else Raise UnicodeDecodeError.

(** [PasswordPolicy.from_names(strength=..., entropybits=..., length=...)];
    the strength threshold is kept as the decimal literal of the call. *)
Record PasswordPolicy := from_names {
  strength : string;
  entropybits : Z;
  length_ : Z
}.

Inductive hash_algorithm := SHA256.

(** What the module calls from outside the repository: the third-party
    functions, and the interpreter's case mapping. *)
Record Libs := {
  (** [str.upper()], by the Unicode tables of the interpreter. *)
  upper : string → string;
  (** [json.dumps] on a dict of strings and [None]. *)
  json_dumps : json → string;
  (** [json.loads]; raises on text that is not JSON. *)
  json_loads : string → result json;
  (** [substrateinterface.utils.ss58.ss58_encode] *)
  ss58_encode : string → result string;
  (** [bittensor.Keypair.create_from_seed], [create_from_mnemonic] and
      [bittensor.Keypair(ss58_address=...)], on whatever the record holds. *)
  create_from_seed : json → result Keypair;
  create_from_mnemonic : json → result Keypair;
  Keypair_ss58_address : json → result Keypair;
  (** [policy.password(password).test()]: the tests that failed. *)
  policy_test : PasswordPolicy → string → list string;
  (** [Vault(password).vault.encrypt(data)], with the salt it draws. *)
  vault_encrypt : string → N → bytes → result bytes;
  (** [Vault(password).load(data)] *)
  vault_load : string → bytes → result pyobj;
  (** [PBKDF2HMAC(algorithm, salt, length, iterations).derive(key_material)] *)
  pbkdf2_hmac : hash_algorithm → bytes → Z → Z → bytes → result bytes;
  (** [Fernet(key).decrypt(token)] *)
  fernet_decrypt : bytes → bytes → result bytes
}.

(* ------------------------------------------------------------------------- *)
(** ** The world outside the module *)

(** A path names a regular file with its contents and permission bits, or a
    directory. *)
Inductive node :=
| File (data : bytes) (mode : Z)
| Dir.

(** What the module did to the outside, oldest first. *)
Inductive event :=
| Asked (prompt answer : string)          (* getpass.getpass / input *)
| Printed (text : string)
| VaultLoad (password : string) (data : bytes)
| VaultEncrypt (password : string) (data : bytes)
| Pbkdf2 (alg : hash_algorithm) (salt : bytes) (length iterations : Z) (key_material : bytes)
| FernetDecrypt (key token : bytes).

Record world := mkWorld {
  fs : gmap string node;
  umask : Z;
  stdin : list string;                 (* the lines the user will type *)
  environ : list (string * string);    (* os.environ, in iteration order *)
  urandom : N;                         (* state of the random source *)
  trace : list event
}.

Definition M (A : Type) : Type := world → result A * world.

Definition ret {A} (a : A) : M A := λ w, (Ok a, w).
Definition raise {A} (e : exn) : M A := λ w, (Raise e, w).
Definition bind {A B} (m : M A) (k : A → M B) : M B :=
  λ w, match m w with
       | (Ok a, w') => k a w'
       | (Raise e, w') => (Raise e, w')
       end.
Definition lift {A} (r : result A) : M A := λ w, (r, w).
Definition get_world : M world := λ w, (Ok w, w).
Definition log (e : event) : M unit :=
  λ w, (Ok tt, mkWorld (fs w) (umask w) (stdin w) (environ w) (urandom w) (trace w ++ [e])).
Definition set_fs (f : gmap string node) : M unit :=
  λ w, (Ok tt, mkWorld f (umask w) (stdin w) (environ w) (urandom w) (trace w)).

(** [try: m  except <classes accepted by handles>: handler] *)
Definition try_except {A} (m : M A) (handles : exn → bool) (handler : exn → M A) : M A :=
  λ w, match m w with
       | (Ok a, w') => (Ok a, w')
       | (Raise e, w') => if handles e then handler e w' else (Raise e, w')
       end.

#[global] Instance M_ret : MRet M := @ret.
#[global] Instance M_bind : MBind M := λ A B k m, bind m k.

(** [getpass.getpass(prompt)] and [input(prompt)]: the next line typed, or
    [EOFError] at the end of the input. *)
Definition read_line (prompt : string) : M string :=
  λ w, match stdin w with
       | [] => (Raise EOFError, w)
       | answer :: rest =>
         (Ok answer,
          mkWorld (fs w) (umask w) rest (environ w) (urandom w)
                  (trace w ++ [Asked prompt answer]))
       end.
Definition getpass := read_line.
Definition input := read_line.
Definition print (text : string) : M unit := log (Printed text).

(* ------------------------------------------------------------------------- *)
(** ** KeyRecord codec (keyfile.py, lines 42-95) *)

Definition hex_digit (n : N) : ascii :=
  ascii_of_N (if (n <? 10)%N then 48 + n else 87 + n).

(** [bytes.hex()] *)
Fixpoint hex (data : bytes) : string :=
  match data with
  | [] => ""
  | x :: rest =>
    String (hex_digit (byte_val x / 16)) (String (hex_digit (byte_val x mod 16)) (hex rest))
  end.

(** Truth value of an attribute that is [None], a [str] or a [bytes]. *)
Definition truthy_bytes (v : option bytes) : option bytes :=
  match v with Some (x :: l) => Some (x :: l) | _ => None end.
Definition truthy_str (v : option string) : option string :=
  match v with Some (String c s) => Some (String c s) | _ => None end.

(** [x if c else None], as a JSON value. *)
Definition or_null (v : option string) : json :=
  match v with Some s => JStr s | None => JNull end.

(** The dict literal of lines 49-55. *)
Definition json_data (keypair : Keypair) : list (string * json) :=
  [ ("accountId", or_null (pk ← truthy_bytes (public_key keypair); Some ("0x" +:+ hex pk)));
    ("publicKey", or_null (pk ← truthy_bytes (public_key keypair); Some ("0x" +:+ hex pk)));
    ("secretPhrase", or_null (truthy_str (mnemonic keypair)));
    ("secretSeed",
      or_null (match seed_hex keypair with
               | Some (inl (String c s)) => Some ("0x" +:+ String c s)
               | Some (inr (x :: l)) => Some ("0x" +:+ hex (x :: l))
               | _ => None
               end));
    ("ss58Address", or_null (truthy_str (ss58_address keypair))) ].

(** Code points of a [str]: a lead byte with the continuation bytes after it. *)
Definition is_cont_ascii (c : ascii) : bool :=
  (128 <=? N_of_ascii c)%N && (N_of_ascii c <=? 191)%N.

Definition starts_with_cont (s : string) : bool :=
  match s with String c _ => is_cont_ascii c | "" => false end.

Fixpoint chars (s : string) : list string :=
  match s with
  | "" => []
  | String c s' =>
    match chars s' with
    | g :: gs => if starts_with_cont s' then String c g :: gs else String c "" :: g :: gs
    | [] => [String c ""]
    end
  end.

Definition hashable (j : json) : bool :=
  match j with JArr _ | JObj _ => false | _ => true end.

(** [n == x] for an [int] and a [float]: the comparison is exact. *)
Definition int_eq_float (n : Z) (x : pyfloat) : bool :=
  match x with
  | FZero _ => (n =? 0)%Z
  | FFinite negative m e =>
    let signed := if negative then Z.neg m else Z.pos m in
    if (0 <=? e)%Z then (n =? signed * 2 ^ e)%Z else (n * 2 ^ (- e) =? signed)%Z
  | FInf _ | FNaN => false
  end.

(** Two floats as dict keys.  Both zeros are one key; so is not-a-number,
    since [json.loads] returns the one object [json.decoder.NaN] for it and
    a dict compares by identity first. *)
Definition float_eq (x y : pyfloat) : bool :=
  match x, y with
  | FZero _, FZero _ => true
  | FFinite s1 m1 e1, FFinite s2 m2 e2 =>
    let e := Z.min e1 e2 in
    bool_decide (s1 = s2) && (Z.pos m1 * 2 ^ (e1 - e) =? Z.pos m2 * 2 ^ (e2 - e))%Z
  | FInf s1, FInf s2 => bool_decide (s1 = s2)
  | FNaN, FNaN => true
  | _, _ => false
  end.

(** A [bool] is an [int]: [True == 1] and [False == 0]. *)
Definition as_int (j : json) : option Z :=
  match j with
  | JBool v => Some (if v then 1 else 0)%Z
  | JInt n => Some n
  | _ => None
  end.

(** Equality of dict keys: strings by their text, [None] with itself, and
    [bool], [int] and [float] by their value, so that [1], [1.0] and [True]
    are one key. *)
Definition key_eqb (j1 j2 : json) : bool :=
  match j1, j2 with
  | JStr s1, JStr s2 => bool_decide (s1 = s2)
  | JNull, JNull => true
  | JFloat x, JFloat y => float_eq x y
  | JFloat x, _ => match as_int j2 with Some n => int_eq_float n x | None => false end
  | _, JFloat y => match as_int j1 with Some n => int_eq_float n y | None => false end
  | _, _ => match as_int j1, as_int j2 with
            | Some n1, Some n2 => (n1 =? n2)%Z
            | _, _ => false
            end
  end.

(** [d[k] = v] *)
Fixpoint dict_set (k v : json) (d : pydict) : pydict :=
  match d with
  | [] => [(k, v)]
  | (k', v') :: d' => if key_eqb k' k then (k', v) :: d' else (k', v') :: dict_set k v d'
  end.

(** [d[k]] for a string [k], [None] when [k not in d]. *)
Fixpoint dict_get (k : string) (d : pydict) : option json :=
  match d with
  | [] => None
  | (k', v) :: d' => if key_eqb k' (JStr k) then Some v else dict_get k d'
  end.

(** The dict [json.loads] makes of an object: a name that comes twice keeps
    its place and takes the later value. *)
Definition object_dict (members : list (string * json)) : pydict :=
  foldl (λ d kv, dict_set (JStr kv.1) kv.2 d) [] members.

(** One element of the sequence given to [dict(...)]: an iterable of exactly
    two items, the first one hashable.  A string gives its characters, a
    dict its keys. *)
Definition dict_item (j : json) : result (json * json) :=
  match j with
  | JArr [k; v] => if hashable k then Ok (k, v) else Raise (OtherError "TypeError")
  | JArr _ => Raise (OtherError "ValueError")
  | JStr s => match chars s with
              | [c1; c2] => Ok (JStr c1, JStr c2)
              | _ => Raise (OtherError "ValueError")
              end
  | JObj members => match object_dict members with
                    | [(k1, _); (k2, _)] => Ok (k1, k2)
                    | _ => Raise (OtherError "ValueError")
                    end
  | _ => Raise (OtherError "TypeError")
  end.

Fixpoint dict_update (items : list json) (d : pydict) : result pydict :=
  match items with
  | [] => Ok d
  | j :: items' => kv ← dict_item j; dict_update items' (dict_set kv.1 kv.2 d)
  end.

(** The builtin [dict(x)] on what [json.loads] can return. *)
Definition dict (x : json) : result pydict :=
  match x with
  | JObj members => Ok (object_dict members)
  | JArr items => dict_update items []
  | JStr s => dict_update (JStr <$> chars s) []
  | _ => Raise (OtherError "TypeError")
  end.

(** [k in d and d[k] is not None] *)
Definition present (k : string) (d : pydict) : option json :=
  match dict_get k d with
  | Some JNull | None => None
  | Some v => Some v
  end.

Section Codec.
Variable L : Libs.

Definition serialized_keypair_to_keyfile_data (keypair : Keypair) : bytes :=
  let data := encode (json_dumps L (JObj (json_data keypair))) in
  data.

(** Lines 69-83: the [try] with its bare [except]. *)
Definition load_keyfile_dict (keyfile_data : string) : result pydict :=
  match j ← json_loads L keyfile_data; dict j with
  | Ok keyfile_dict => Ok keyfile_dict
  | Raise _ =>
    let string_value := keyfile_data in
    if bool_decide (substring 0 2 string_value = "0x") then
      string_value ← ss58_encode L string_value;
      Ok [ (JStr "accountId", JNull);
           (JStr "publicKey", JNull);
           (JStr "secretPhrase", JNull);
           (JStr "secretSeed", JNull);
           (JStr "ss58Address", JStr string_value) ]
    else Raise (KeyFileError (NoKeypairFromText string_value))
  end.

Definition deserialize_keypair_from_keyfile_data (keyfile_data : bytes) : result Keypair :=
  keyfile_data ← decode keyfile_data;
  keyfile_dict ← load_keyfile_dict keyfile_data;
  match present "secretSeed" keyfile_dict with
  | Some seed => create_from_seed L seed
  | None =>
    match present "secretPhrase" keyfile_dict with
    | Some phrase => create_from_mnemonic L phrase
    | None =>
      match present "ss58Address" keyfile_dict with
      | Some address => Keypair_ss58_address L address
      | None => Raise (KeyFileError (NoKeypairFromDict keyfile_dict))
      end
    end
  end.
End Codec.

(* ------------------------------------------------------------------------- *)
(** ** Password policy (keyfile.py, lines 97-131) *)

Section Password.
Variable L : Libs.

Definition validate_password (password : option string) : M bool :=
  let policy := from_names "0.20" 10 6 in
  match truthy_str password with
  | None => mret false
  | Some password =>
    let result := policy_test L policy password in
    if bool_decide (0 < length result) then
      print "Password not strong enough. Try increasing the length of the password or the password complexity";;
      mret false
    else
      password_verification ← getpass "Retype your password: ";
      if bool_decide (password ≠ password_verification) then
        print "Passwords do not match";;
        mret false
      else mret true
  end.

(** The [while not valid] loop, at most [fuel] rounds. *)
Fixpoint ask_password_loop (fuel : nat) : M string :=
  match fuel with
  | O => raise OutOfFuel
  | S fuel' =>
    password ← getpass "Specify password for key encryption: ";
    valid ← validate_password (Some password);
    if valid : bool then mret password else ask_password_loop fuel'
  end.

(** Every round reads a line or ends in [EOFError], so one round more than
    there are lines left is enough. *)
Definition ask_password_to_encrypt : M string :=
  λ w, ask_password_loop (S (length (stdin w))) w.
End Password.

(* ------------------------------------------------------------------------- *)
(** ** Encryption engine (keyfile.py, lines 160-233) *)

(** The URL-safe base64 alphabet. *)
Definition b64_char (n : N) : byte :=
  byte_of_ascii (ascii_of_N
    (if (n <? 26)%N then 65 + n
     else if (n <? 52)%N then 97 + (n - 26)
     else if (n <? 62)%N then 48 + (n - 52)
     else if (n =? 62)%N then 45 else 95)).

Definition sextet (n : N) (i : N) : byte :=
  b64_char (N.land (N.shiftr n (6 * i)) 63).

(** [base64.urlsafe_b64encode] *)
Fixpoint urlsafe_b64encode (data : bytes) : bytes :=
  match data with
  | [] => []
  | [x] =>
    let n := N.shiftl (byte_val x) 16 in
    [sextet n 3; sextet n 2; "="%byte; "="%byte]
  | [x; y] =>
    let n := N.lor (N.shiftl (byte_val x) 16) (N.shiftl (byte_val y) 8) in
    [sextet n 3; sextet n 2; sextet n 1; "="%byte]
  | x :: y :: z :: rest =>
    let n := N.lor (N.lor (N.shiftl (byte_val x) 16) (N.shiftl (byte_val y) 8)) (byte_val z) in
    sextet n 3 :: sextet n 2 :: sextet n 1 :: sextet n 0 :: urlsafe_b64encode rest
  end.

Definition startswith (s p : string) : bool :=
  bool_decide (substring 0 (String.length p) s = p).

Definition endswith (s p : string) : bool :=
  bool_decide (String.length p ≤ String.length s)%nat &&
  bool_decide (substring (String.length s - String.length p) (String.length p) s = p).

Section Environment.
Variable L : Libs.

(** The loop over [os.environ] of lines 182-189. *)
Fixpoint scan_environment (env : list (string * string)) (coldkey_name : string) : option string :=
  match env with
  | [] => None
  | (env_var, value) :: env' =>
    if startswith (upper L env_var) "BT_COLD_PW_"
       && endswith (upper L env_var) (upper L coldkey_name)
    then Some value
    else scan_environment env' coldkey_name
  end.

Definition get_coldkey_password_from_environment (coldkey_name : string) : M (option string) :=
  w ← get_world; mret (scan_environment (environ w) coldkey_name).

End Environment.

(** [os.urandom], as the vault cipher uses it for its salt. *)
Definition draw : M N :=
  λ w, (Ok (urandom w),
        mkWorld (fs w) (umask w) (stdin w) (environ w) (N.succ (urandom w)) (trace w)).

Definition __SALT : bytes :=
  b "Iguesscyborgslikemyselfhaveatendencytobeparanoidaboutourorigins".

Definition is_vault_error (e : exn) : bool :=
  match e with AnsibleVaultError => true | _ => false end.

Definition is_invalid_signature_key_token (e : exn) : bool :=
  match e with InvalidSignature | InvalidKey | InvalidToken => true | _ => false end.

Section Engine.
Variable L : Libs.

Definition encrypt_keyfile_data (keyfile_data : bytes) (password : option string) : M bytes :=
  password ← match password with
             | None => ask_password_to_encrypt L
             | Some password => mret password
             end;
  salt ← draw;
  log (VaultEncrypt password keyfile_data);;
  lift (vault_encrypt L password salt keyfile_data).

(** The Legacy key of lines 219-221. *)
Definition legacy_key (password : string) : M bytes :=
  log (Pbkdf2 SHA256 __SALT 32 10000000 (encode password));;
  derived ← lift (pbkdf2_hmac L SHA256 __SALT 32 10000000 (encode password));
  mret (urlsafe_b64encode derived).

Definition decrypt_keyfile_data (keyfile_data : bytes) (password : option string)
    (coldkey_name : option string) : M bytes :=
  password ← match coldkey_name, password with
             | Some coldkey_name, None => get_coldkey_password_from_environment L coldkey_name
             | _, _ => mret password
             end;
  decrypted_keyfile_data ←
    try_except
      (password ← match password with
                  | None => getpass "Enter password to unlock key: "
                  | Some password => mret password
                  end;
       (* Ansible decrypt. *)
       if keyfile_data_is_encrypted_ansible keyfile_data then
         log (VaultLoad password keyfile_data);;
         try_except (lift (vault_load L password keyfile_data))
           is_vault_error (λ _, raise (KeyFileError InvalidPassword))
       (* Legacy decrypt. *)
       else if keyfile_data_is_encrypted_legacy keyfile_data then
         key ← legacy_key password;
         log (FernetDecrypt key keyfile_data);;
         data ← lift (fernet_decrypt L key keyfile_data);
         mret (PBytes data)
       (* Unknown. *)
       else raise (KeyFileError (DataCorrupt keyfile_data)))
      is_invalid_signature_key_token (λ _, raise (KeyFileError InvalidPassword));
  match decrypted_keyfile_data with
  | PBytes data => mret data
  | PJson j => mret (encode (json_dumps L j))
  end.
End Engine.

(* ------------------------------------------------------------------------- *)
(** ** The file system calls the keyfile object makes

    Paths are compared as written.  The process owns its files and is not
    privileged, so [os.access] reads the owner bits. *)

Definition S_IRUSR : Z := 256.   (* 0o400 *)
Definition S_IWUSR : Z := 128.   (* 0o200 *)

Definition is_slash (c : ascii) : bool := bool_decide (c = "/"%char).

Fixpoint take_while {A} (f : A → bool) (l : list A) : list A :=
  match l with
  | x :: l' => if f x then x :: take_while f l' else []
  | [] => []
  end.

Fixpoint drop_while {A} (f : A → bool) (l : list A) : list A :=
  match l with
  | x :: l' => if f x then drop_while f l' else l
  | [] => []
  end.

(** [posixpath.split]: the head loses its trailing slashes unless it is made
    of slashes only. *)
Definition split_path (p : string) : string * string :=
  let r := rev (list_ascii_of_string p) in
  let tail_rev := take_while (λ c, negb (is_slash c)) r in
  let head_rev := drop_while (λ c, negb (is_slash c)) r in
  let head_rev := if forallb is_slash head_rev then head_rev
                  else drop_while is_slash head_rev in
  (string_of_list_ascii (rev head_rev), string_of_list_ascii (rev tail_rev)).

Definition dirname (p : string) : string := (split_path p).1.

(** The root directory is always there. *)
Definition lookup_path (f : gmap string node) (p : string) : option node :=
  if bool_decide (p ≠ "") && forallb is_slash (list_ascii_of_string p) then Some Dir
  else f !! p.

Definition stat_path (p : string) : M (option node) :=
  w ← get_world; mret (lookup_path (fs w) p).

Definition path_isfile (p : string) : M bool :=
  n ← stat_path p; mret (match n with Some (File _ _) => true | _ => false end).

Definition path_exists (p : string) : M bool :=
  n ← stat_path p; mret (match n with Some _ => true | None => false end).

(** [os.access(p, os.R_OK)] with [bit = S_IRUSR], [os.W_OK] with [S_IWUSR]. *)
Definition access (p : string) (bit : Z) : M bool :=
  n ← stat_path p;
  mret (match n with
        | Some (File _ mode) => bool_decide (Z.land mode bit ≠ 0%Z)
        | Some Dir => true
        | None => false
        end).

(** The directory a new entry [p] would be made in. *)
Definition check_parent (p : string) : M unit :=
  let '(head, tail) := split_path p in
  let head := if bool_decide (tail = "") then (split_path head).1 else head in
  if bool_decide (head = "") then mret tt
  else
    n ← stat_path head;
    match n with
    | Some Dir => mret tt
    | Some (File _ _) => raise NotADirectoryError
    | None => raise FileNotFoundError
    end.

Definition write_node (p : string) (n : node) : M unit :=
  w ← get_world; set_fs (<[p := n]> (fs w)).

(** [with open(p, 'rb') as file: data = file.read()] *)
Definition read_file (p : string) : M bytes :=
  n ← stat_path p;
  match n with
  | Some (File data mode) =>
    if bool_decide (Z.land mode S_IRUSR ≠ 0%Z) then mret data else raise PermissionError
  | Some Dir => raise IsADirectoryError
  | None => raise FileNotFoundError
  end.

(** [with open(p, 'wb') as keyfile: keyfile.write(data)]: an existing file
    keeps its mode, a new one gets [0o666 & ~umask]. *)
Definition write_file (p : string) (data : bytes) : M unit :=
  n ← stat_path p;
  match n with
  | Some (File _ mode) =>
    if bool_decide (Z.land mode S_IWUSR ≠ 0%Z) then write_node p (File data mode)
    else raise PermissionError
  | Some Dir => raise IsADirectoryError
  | None =>
    if bool_decide (p = "") then raise FileNotFoundError
    else
      check_parent p;;
      w ← get_world;
      write_node p (File data (Z.land 438 (Z.lnot (umask w))))
  end.

(** [os.chmod(p, mode)] *)
Definition chmod (p : string) (mode : Z) : M unit :=
  n ← stat_path p;
  match n with
  | Some (File data _) => write_node p (File data mode)
  | Some Dir => mret tt
  | None => raise FileNotFoundError
  end.

(** [os.mkdir(name)] *)
Definition mkdir (name : string) : M unit :=
  n ← stat_path name;
  match n with
  | Some _ => raise FileExistsError
  | None =>
    if bool_decide (name = "") then raise FileNotFoundError
    else check_parent name;; write_node name Dir
  end.

Definition is_file_exists_error (e : exn) : bool :=
  match e with FileExistsError => true | _ => false end.

(** [os.makedirs(name)]; the recursion is on a strictly shorter head. *)
Fixpoint makedirs_fuel (fuel : nat) (name : string) : M unit :=
  match fuel with
  | O => raise OutOfFuel
  | S fuel' =>
    let '(head, tail) := split_path name in
    let '(head, tail) := if bool_decide (tail = "") then split_path head else (head, tail) in
    done ← (if bool_decide (head ≠ "") && bool_decide (tail ≠ "") then
              there ← path_exists head;
              if there : bool then mret false
              else
                try_except (makedirs_fuel fuel' head) is_file_exists_error (λ _, mret tt);;
                mret (bool_decide (tail = "."))
            else mret false);
    if done : bool then mret tt else mkdir name
  end.

Definition makedirs (name : string) : M unit :=
  makedirs_fuel (S (String.length name)) name.

(* ------------------------------------------------------------------------- *)
(** ** The keyfile object (keyfile.py, lines 235-439) *)

(** [self.path] is the path after [os.path.expanduser]; [self.name] is
    [Path(self.path).parent.stem], computed once by the constructor. *)
Record keyfile := {
  path : string;
  name : string
}.

Section KeyfileObject.
Variable L : Libs.

Definition make_dirs (self : keyfile) : M unit :=
  let directory := dirname (path self) in
  there ← path_exists directory;
  if there : bool then mret tt else makedirs directory.

Definition exists_on_device (self : keyfile) : M bool :=
  isfile ← path_isfile (path self);
  if negb isfile then mret false else mret true.

Definition is_readable (self : keyfile) : M bool :=
  on_device ← exists_on_device self;
  if negb on_device then mret false
  else
    ok ← access (path self) S_IRUSR;
    if negb ok then mret false else mret true.

Definition is_writable (self : keyfile) : M bool :=
  ok ← access (path self) S_IWUSR;
  if ok : bool then mret true else mret false.

Definition _read_keyfile_data_from_file (self : keyfile) : M bytes :=
  on_device ← exists_on_device self;
  if negb on_device then raise (KeyFileError (DoesNotExist (path self)))
  else
    readable ← is_readable self;
    if negb readable then raise (KeyFileError (NotReadable (path self)))
    else read_file (path self).

Definition is_encrypted (self : keyfile) : M bool :=
  on_device ← exists_on_device self;
  if negb on_device then mret false
  else
    readable ← is_readable self;
    if negb readable then mret false
    else
      data ← _read_keyfile_data_from_file self;
      mret (keyfile_data_is_encrypted data).

Definition _may_overwrite (self : keyfile) : M bool :=
  choice ← input ("File " +:+ path self +:+ " already exists. Overwrite? (y/N) ");
  mret (bool_decide (choice = "y")).

Definition _write_keyfile_data_to_file (self : keyfile) (keyfile_data : bytes)
    (overwrite : bool) : M unit :=
  (* Check overwrite. *)
  on_device ← exists_on_device self;
  (if on_device && negb overwrite then
     may ← _may_overwrite self;
     if negb may then raise (KeyFileError (NotWritable (path self))) else mret tt
   else mret tt);;
  write_file (path self) keyfile_data;;
  (* Set file permissions. *)
  chmod (path self) (Z.lor S_IRUSR S_IWUSR).

Definition set_keypair (self : keyfile) (keypair : Keypair) (encrypt overwrite : bool)
    (password : option string) : M unit :=
  make_dirs self;;
  let keyfile_data := serialized_keypair_to_keyfile_data L keypair in
  keyfile_data ← (if encrypt then encrypt_keyfile_data L keyfile_data password
                  else mret keyfile_data);
  _write_keyfile_data_to_file self keyfile_data overwrite.

Definition get_keypair (self : keyfile) (password : option string) : M Keypair :=
  keyfile_data ← _read_keyfile_data_from_file self;
  keyfile_data ← (if keyfile_data_is_encrypted keyfile_data
                  then decrypt_keyfile_data L keyfile_data password (Some (name self))
                  else mret keyfile_data);
  lift (deserialize_keypair_from_keyfile_data L keyfile_data).

Definition encrypt (self : keyfile) (password : option string) : M unit :=
  on_device ← exists_on_device self;
  if negb on_device then raise (KeyFileError (DoesNotExist (path self))) else
  readable ← is_readable self;
  if negb readable then raise (KeyFileError (NotReadable (path self))) else
  writable ← is_writable self;
  if negb writable then raise (KeyFileError (NotWritable (path self))) else
  keyfile_data ← _read_keyfile_data_from_file self;
  keyfile_data ← (if negb (keyfile_data_is_encrypted keyfile_data) then
                    as_keypair ← lift (deserialize_keypair_from_keyfile_data L keyfile_data);
                    let keyfile_data := serialized_keypair_to_keyfile_data L as_keypair in
                    encrypt_keyfile_data L keyfile_data password
                  else mret keyfile_data);
  _write_keyfile_data_to_file self keyfile_data true.

Definition decrypt (self : keyfile) (password : option string) : M unit :=
  on_device ← exists_on_device self;
  if negb on_device then raise (KeyFileError (DoesNotExist (path self))) else
  readable ← is_readable self;
  if negb readable then raise (KeyFileError (NotReadable (path self))) else
  writable ← is_writable self;
  if negb writable then raise (KeyFileError (NotWritable (path self))) else
  keyfile_data ← _read_keyfile_data_from_file self;
  keyfile_data ← (if keyfile_data_is_encrypted keyfile_data
                  then decrypt_keyfile_data L keyfile_data password (Some (name self))
                  else mret keyfile_data);
  as_keypair ← lift (deserialize_keypair_from_keyfile_data L keyfile_data);
  let keyfile_data := serialized_keypair_to_keyfile_data L as_keypair in
  _write_keyfile_data_to_file self keyfile_data true.
End KeyfileObject.


(** [keyfile.__str__] (lines 243-249). *)
Definition __str__ (self : keyfile) : M string :=
  on_device ← exists_on_device self;
  if negb on_device then mret ("keyfile (empty, " +:+ path self +:+ ")>")
  else
    encrypted ← is_encrypted self;
    if encrypted : bool then mret ("keyfile (encrypted, " +:+ path self +:+ ")>")
    else mret ("keyfile (decrypted, " +:+ path self +:+ ")>").

(* ------------------------------------------------------------------------- *)
(** ** The mock keyfile (keyfile.py, lines 442-589)

    The object is its three attributes; a method that assigns to [self]
    returns the object after the call. *)

Module Mock.

Record Mockkeyfile := {
  path : string;
  _mock_keypair : option Keypair;
  _mock_data : option bytes
}.

Definition __init__ (path : string) : Mockkeyfile :=
  {| path := path; _mock_keypair := None; _mock_data := None |}.

Definition keypair (self : Mockkeyfile) : option Keypair := _mock_keypair self.

Definition data (self : Mockkeyfile) : option bytes := _mock_data self.

Definition set_keypair (self : Mockkeyfile) (keypair : Keypair)
    (encrypt overwrite : bool) (password : option string) : Mockkeyfile :=
  {| path := path self; _mock_keypair := Some keypair; _mock_data := None |}.

Definition get_keypair (self : Mockkeyfile) (password : option string) : option Keypair :=
  _mock_keypair self.

Definition exists_on_device (self : Mockkeyfile) : bool := true.
Definition is_readable (self : Mockkeyfile) : bool := true.
Definition is_writable (self : Mockkeyfile) : bool := true.
Definition is_encrypted (self : Mockkeyfile) : bool := false.

Definition encrypt (self : Mockkeyfile) (password : option string) : result Mockkeyfile :=
  Raise (OtherError "ValueError").

Definition decrypt (self : Mockkeyfile) (password : option string) : result Mockkeyfile :=
  Ok self.

End Mock.

(* ------------------------------------------------------------------------- *)
(** ** The Vicuna miner's text handling (neurons/.../vicuna/neuron.py, lines 61-75) *)

Definition newline : string := String "010" "".

(** A chat message is a dict from strings to strings; indexing a missing key
    raises [KeyError]. *)
Definition getitem (message : gmap string string) (key : string) : result string :=
  match message !! key with
  | Some v => Ok v
  | None => Raise (OtherError "KeyError")
  end.

(** One of the three [if] statements of the loop body. *)
Definition append_if_role (role : string) (processed_history : string)
    (message : gmap string string) : result string :=
  r ← getitem message "role";
  if bool_decide (r = role) then
    content ← getitem message "content";
    Ok (processed_history +:+ (role +:+ ": " +:+ content +:+ newline))
  else Ok processed_history.

(** The [for] loop of [_process_history], from the text built so far. *)
Fixpoint process_history_from (processed_history : string)
    (history : list (gmap string string)) : result string :=
  match history with
  | [] => Ok processed_history
  | message :: history' =>
    processed_history ← append_if_role "system" processed_history message;
    processed_history ← append_if_role "assistant" processed_history message;
    processed_history ← append_if_role "user" processed_history message;
    process_history_from processed_history history'
  end.

Definition _process_history (history : list (gmap string string)) : result string :=
  let processed_history := "" in
  process_history_from processed_history history.

(** [s.split(sep)] for a one-character separator: never an empty list. *)
Fixpoint split_char (sep : ascii) (s : string) : list string :=
  match s with
  | "" => [""]
  | String c s' =>
    if bool_decide (c = sep) then "" :: split_char sep s'
    else match split_char sep s' with
         | seg :: segs => String c seg :: segs
         | [] => [String c ""]
         end
  end.

(** The scan of [str.replace] for a pattern that is not empty: [skip]
    characters of a match found earlier are still to be dropped. *)
Fixpoint replace_scan (old new : string) (skip : nat) (s : string) : string :=
  match s with
  | "" => ""
  | String c s' =>
    match skip with
    | S k => replace_scan old new k s'
    | O =>
      if String.prefix old s then new +:+ replace_scan old new (String.length old - 1) s'
      else String c (replace_scan old new 0 s')
    end
  end.

(** [s.replace(old, new)]; an empty [old] matches before every character and
    at the end. *)
Definition replace (s old new : string) : string :=
  if bool_decide (old = "") then
    new +:+ String.concat "" ((λ c, c +:+ new) <$> chars s)
  else replace_scan old new 0 s.

(** [forward]; [pipe history] stands for
    [self.pipe(history)[0]['generated_text']]. *)
Definition forward (pipe : string → result string)
    (messages : list (gmap string string)) : result string :=
  history ← _process_history messages;
  generated_text ← pipe history;
  Ok (replace (List.last (split_char ":" generated_text) "") history "").

(* ========================================================================= *)
(** * Vocabulary of the statements *)

(** The two markers. *)
Definition vault_magic : bytes := b "$ANSIBLE_VAULT".
Definition legacy_magic : bytes := b "gAAAAA".

(** The world with further events on its trace. *)
Definition add_events (w : world) (evs : list event) : world :=
  mkWorld (fs w) (umask w) (stdin w) (environ w) (urandom w) (trace w ++ evs).

(** Lines 231-232. *)
Definition normalize (L : Libs) (v : pyobj) : bytes :=
  match v with
  | PBytes data => data
  | PJson j => encode (json_dumps L j)
  end.

(** Which library exceptions end as ['Invalid password'], on each path. *)
Definition vault_caught (e : exn) : bool :=
  is_vault_error e || is_invalid_signature_key_token e.

(** What the caller sees when a library raises [e] under an [except] clause
    for the classes [caught]. *)
Definition as_raised (caught : exn → bool) (e : exn) : exn :=
  if caught e then KeyFileError InvalidPassword else e.

(** The one key-derivation call of the Legacy path. *)
Definition kdf_call (pw : string) : event :=
  Pbkdf2 SHA256 __SALT 32 10000000 (encode pw).

(** The one text the stand-in JSON reader knows, and what it reads from it. *)
Definition sample_text : string := "{seed-and-phrase}".

Definition sample_record : json :=
  JObj [("secretPhrase", JStr "bottom drive obey lake");
        ("secretSeed", JStr "0x01");
        ("ss58Address", JStr "5Grw")].

(** What [str.upper()] does to text in ASCII: the letters [a] to [z] go to
    [A] to [Z], every other character stays. *)
Definition upper_ascii (c : ascii) : ascii :=
  let n := N_of_ascii c in
  if (97 <=? n)%N && (n <=? 122)%N then ascii_of_N (n - 32) else c.

Fixpoint upper_ascii_text (s : string) : string :=
  match s with
  | "" => ""
  | String c s' => String (upper_ascii c) (upper_ascii_text s')
  end.

(** A stand-in for the libraries, for running the module on concrete inputs:
    a case mapping that knows the ASCII letters only,
    a vault and a token cipher that open nothing, a key derivation that
    repeats its input, a policy that only measures length, and a JSON reader
    that knows one record.  The vault refuses a blob under the header line of
    format 1.1 as it refuses a wrong password, with [AnsibleVaultError], and
    every other blob, the bare marker included, as it refuses an envelope it
    cannot parse, with [AnsibleVaultFormatError]. *)
Definition double_libs : Libs := {|
  upper := upper_ascii_text;
  json_dumps := λ _, "{}";
  json_loads := λ text,
    if bool_decide (text = sample_text) then Ok sample_record
    else Raise (OtherError "JSONDecodeError");
  ss58_encode := λ s, Ok ("5" +:+ s);
  create_from_seed := λ j,
    match j with
    | JStr s => Ok (mkKeypair None None None (Some (inl s)) None)
    | _ => Raise (OtherError "TypeError")
    end;
  create_from_mnemonic := λ j,
    match j with
    | JStr s => Ok (mkKeypair None None (Some s) None None)
    | _ => Raise (OtherError "TypeError")
    end;
  Keypair_ss58_address := λ j,
    match j with
    | JStr s => Ok (mkKeypair (Some (encode s)) None None None (Some s))
    | _ => Raise (OtherError "TypeError")
    end;
  policy_test := λ policy password,
    if bool_decide (Z.of_nat (String.length password) < length_ policy)%Z then ["length"] else [];
  vault_encrypt := λ password salt data, Ok (b "$ANSIBLE_VAULT;1.1;AES256" ++ data);
  vault_load := λ _ data,
    if bool_decide (take 25 data = b "$ANSIBLE_VAULT;1.1;AES256")
    then Raise AnsibleVaultError else Raise AnsibleVaultFormatError;
  pbkdf2_hmac := λ _ salt len _ key_material, Ok (take (Z.to_nat len) (key_material ++ salt));
  fernet_decrypt := λ _ _, Raise InvalidToken
|}.

(** No files, umask 0o022, nothing typed, no environment. *)
Definition empty_world : world := mkWorld ∅ 18 [] [] 0 [].

(** A keypair with every attribute but the private key. *)
Definition alice : Keypair :=
  mkKeypair (Some [Byte.x32; Byte.x93; Byte.x9b]) None
            (Some "bottom drive obey lake") (Some (inr [Byte.xe5; Byte.xbe])) (Some "5DD26kC2").

(** A string or [None]. *)
Definition nullable_string (j : json) : Prop := j = JNull ∨ ∃ s, j = JStr s.

(** [k not in d or d[k] is None], and its opposite with the value. *)
Definition absent_or_null (k : string) (d : pydict) : Prop :=
  dict_get k d = None ∨ dict_get k d = Some JNull.

Definition holds (k : string) (d : pydict) (v : json) : Prop :=
  dict_get k d = Some v ∧ v ≠ JNull.

(** The world after a prompt was answered with the first line of input. *)
Definition answered (w : world) (prompt answer : string) (rest : list string) : world :=
  mkWorld (fs w) (umask w) rest (environ w) (urandom w) (trace w ++ [Asked prompt answer]).

(** The policy of lines 104-108. *)
Definition the_policy : PasswordPolicy := from_names "0.20" 10 6.

(** The question of line 366. *)
Definition overwrite_prompt (self : keyfile) : string :=
  "File " +:+ path self +:+ " already exists. Overwrite? (y/N) ".

(** The path names a regular file with these bytes and permission bits. *)
Definition holds_file (w : world) (p : string) (data : bytes) (mode : Z) : Prop :=
  lookup_path (fs w) p = Some (File data mode).

(** Nothing was read from or shown on the console. *)
Definition same_console (w w' : world) : Prop :=
  stdin w' = stdin w ∧ trace w' = trace w.

(** A keyfile at [/w/coldkey], and a world where it exists with mode 0o644. *)
Definition coldkey : keyfile := {| path := "/w/coldkey"; name := "w" |}.

Definition world_with_coldkey (lines : list string) : world :=
  mkWorld {[ "/w" := Dir; "/w/coldkey" := File (b "0x01") 420 ]} 18 lines [] 0 [].

(** Every run of [m] relates the world before to the world after by [R]. *)
Definition respects {A} (R : world → world → Prop) (m : M A) : Prop :=
  ∀ w r w', m w = (r, w') → R w w'.

(** Directories may appear; nothing that is there changes, and the console
    is not used. *)
Definition grows (w w' : world) : Prop :=
  stdin w' = stdin w ∧ trace w' = trace w
  ∧ ∀ p n, lookup_path (fs w) p = Some n → lookup_path (fs w') p = Some n.

(** An event other than an answer to the overwrite question. *)
Definition not_overwrite_prompt (self : keyfile) (e : event) : Prop :=
  ∀ answer, e ≠ Asked (overwrite_prompt self) answer.

(** The file system is as before and the overwrite question was not asked. *)
Definition quiet (self : keyfile) (w w' : world) : Prop :=
  fs w' = fs w
  ∧ ∃ evs, trace w' = trace w ++ evs ∧ Forall (not_overwrite_prompt self) evs.

(** The permission bits are exactly owner-read (bit 8) and owner-write
    (bit 7). *)
Definition owner_rw_only (mode : Z) : Prop :=
  ∀ i, Z.testbit mode i = true ↔ (i = 7 ∨ i = 8)%Z.

(** The file holds [data] with mode [S_IRUSR | S_IWUSR]. *)
Definition hardened (w : world) (p : string) (data : bytes) : Prop :=
  ∃ mode, holds_file w p data mode
          ∧ mode = Z.lor S_IRUSR S_IWUSR ∧ owner_rw_only mode.

(** The path names a regular file the owner may read, with these bytes. *)
Definition readable_file (w : world) (p : string) (data : bytes) : Prop :=
  ∃ mode, holds_file w p data mode ∧ Z.land mode S_IRUSR ≠ 0%Z.

(** The path names a regular file the owner may read and write. *)
Definition usable_file (w : world) (p : string) (data : bytes) : Prop :=
  ∃ mode, holds_file w p data mode
          ∧ Z.land mode S_IRUSR ≠ 0%Z ∧ Z.land mode S_IWUSR ≠ 0%Z.

(** The path does not name a regular file. *)
Definition no_file (w : world) (p : string) : Prop :=
  ∀ data mode, ¬ holds_file w p data mode.

(** The world after [data] was written to [p] and the mode set to
    [S_IRUSR | S_IWUSR]; nothing else differs. *)
Definition set_file (w : world) (p : string) (data : bytes) : world :=
  mkWorld (<[p := File data (Z.lor S_IRUSR S_IWUSR)]> (fs w)) (umask w) (stdin w)
          (environ w) (urandom w) (trace w).

(** The test of lines 183-186 on one variable name. *)
Definition names_coldkey (L : Libs) (env_var coldkey_name : string) : bool :=
  startswith (upper L env_var) "BT_COLD_PW_"
  && endswith (upper L env_var) (upper L coldkey_name).

(** Text in ASCII, and a case mapping that does to it what [str.upper()]
    does: only the letters [a] to [z] change. *)
Fixpoint is_ascii_text (s : string) : bool :=
  match s with
  | "" => true
  | String c s' => (N_of_ascii c <? 128)%N && is_ascii_text s'
  end.

Definition upper_on_ascii (L : Libs) : Prop :=
  ∀ s, is_ascii_text s = true → upper L s = upper_ascii_text s.

(** Upper-casing twice is upper-casing once, as it is for [str.upper()]. *)
Definition upper_idempotent (L : Libs) : Prop :=
  ∀ s, upper L (upper L s) = upper L s.

(** The prompt of line 207. *)
Definition unlock_prompt : string := "Enter password to unlock key: ".

(** [decrypt_keyfile_data] from line 206 on, after the environment was
    consulted. *)
Definition decrypt_from_try (L : Libs) (keyfile_data : bytes) (password : option string)
    : M bytes :=
  decrypted_keyfile_data ←
    try_except
      (password ← match password with
                  | None => getpass "Enter password to unlock key: "
                  | Some password => mret password
                  end;
       if keyfile_data_is_encrypted_ansible keyfile_data then
         log (VaultLoad password keyfile_data);;
         try_except (lift (vault_load L password keyfile_data))
           is_vault_error (λ _, raise (KeyFileError InvalidPassword))
       else if keyfile_data_is_encrypted_legacy keyfile_data then
         key ← legacy_key L password;
         log (FernetDecrypt key keyfile_data);;
         data ← lift (fernet_decrypt L key keyfile_data);
         mret (PBytes data)
       else raise (KeyFileError (DataCorrupt keyfile_data)))
      is_invalid_signature_key_token (λ _, raise (KeyFileError InvalidPassword));
  match decrypted_keyfile_data with
  | PBytes data => mret data
  | PJson j => mret (encode (json_dumps L j))
  end.

(** One component of the world is the same after as before. *)
Definition keeps {T} (f : world → T) (w w' : world) : Prop := f w' = f w.

(** A run that raises leaves the file system as it was. *)
Definition fails_clean {A} (m : M A) : Prop :=
  ∀ w e w', m w = (Raise e, w') → fs w' = fs w.

(** The world after the vault cipher was called once: one draw from the
    random source, one event. *)
Definition after_vault_encrypt (w : world) (password : string) (data : bytes) : world :=
  mkWorld (fs w) (umask w) (stdin w) (environ w) (N.succ (urandom w))
          (trace w ++ [VaultEncrypt password data]).


(** The [secretSeed] field of the record: ["0x"] and the seed, when the
    keypair has one. *)
Definition seed_text (keypair : Keypair) : option string :=
  match seed_hex keypair with
  | Some (inl (String c s)) => Some ("0x" +:+ String c s)
  | Some (inr (x :: l)) => Some ("0x" +:+ hex (x :: l))
  | _ => None
  end.

(** The record of a keypair as the dict [json.loads] gives back. *)
Definition record_dict (keypair : Keypair) : pydict :=
  (λ kv, (JStr kv.1, kv.2)) <$> json_data keypair.

(** The stand-in libraries with a JSON reader that reads the text of the
    stand-in writer back as the record of [alice]. *)
Definition alice_libs : Libs := {|
  upper := upper double_libs;
  json_dumps := json_dumps double_libs;
  json_loads := λ text,
    if bool_decide (text = "{}") then Ok (JObj (json_data alice))
    else Raise (OtherError "JSONDecodeError");
  ss58_encode := ss58_encode double_libs;
  create_from_seed := create_from_seed double_libs;
  create_from_mnemonic := create_from_mnemonic double_libs;
  Keypair_ss58_address := Keypair_ss58_address double_libs;
  policy_test := policy_test double_libs;
  vault_encrypt := vault_encrypt double_libs;
  vault_load := vault_load double_libs;
  pbkdf2_hmac := pbkdf2_hmac double_libs;
  fernet_decrypt := fernet_decrypt double_libs
|}.

(** What one message adds to the history text. *)
Definition message_line (message : gmap string string) : result string :=
  role ← getitem message "role";
  if bool_decide (role = "system") || bool_decide (role = "assistant")
     || bool_decide (role = "user")
  then content ← getitem message "content"; Ok (role +:+ ": " +:+ content +:+ newline)
  else Ok "".

(** The character occurs in the string. *)
Fixpoint contains_char (c : ascii) (s : string) : bool :=
  match s with
  | "" => false
  | String a s' => bool_decide (a = c) || contains_char c s'
  end.

(** A chat of three messages, the second with a role the miner does not know. *)
Definition chat : list (gmap string string) :=
  [ {[ "role" := "system"; "content" := "Be brief." ]};
    {[ "role" := "tool"; "name" := "search" ]};
    {[ "role" := "user"; "content" := "Hi" ]} ].

(** One call of the mock's [set_keypair], with its arguments. *)
Record mock_call := {
  call_keypair : Keypair;
  call_encrypt : bool;
  call_overwrite : bool;
  call_password : option string
}.

(** The mock after a series of [set_keypair] calls, oldest first. *)
Definition mock_after (self : Mock.Mockkeyfile) (calls : list mock_call) : Mock.Mockkeyfile :=
  foldl (λ self c, Mock.set_keypair self (call_keypair c) (call_encrypt c)
                     (call_overwrite c) (call_password c)) self calls.

(** The stand-in libraries with a vault that seals by putting a header in
    front and opens by taking it off, whatever the password. *)
Definition vault_libs : Libs := {|
  upper := upper alice_libs;
  json_dumps := json_dumps alice_libs;
  json_loads := json_loads alice_libs;
  ss58_encode := ss58_encode alice_libs;
  create_from_seed := create_from_seed alice_libs;
  create_from_mnemonic := create_from_mnemonic alice_libs;
  Keypair_ss58_address := Keypair_ss58_address alice_libs;
  policy_test := policy_test alice_libs;
  vault_encrypt := λ password salt data, Ok (b "$ANSIBLE_VAULT;" ++ data);
  vault_load := λ password data, Ok (PBytes (drop 15 data));
  pbkdf2_hmac := pbkdf2_hmac alice_libs;
  fernet_decrypt := fernet_decrypt alice_libs
|}.

(** A world where [/w/coldkey] holds the text the stand-in JSON reader knows. *)
Definition world_with_record : world :=
  mkWorld {[ "/w" := Dir; "/w/coldkey" := File (b "{}") 420 ]} 18 [] [] 0 [].

(** A byte of the URL-safe base64 alphabet, the padding [=] included. *)
Definition is_urlsafe (x : byte) : bool :=
  in_range 65 90 x || in_range 97 122 x || in_range 48 57 x
  || bool_decide (x = "-"%byte) || bool_decide (x = "_"%byte) || bool_decide (x = "="%byte).

(* ========================================================================= *)
(** * Properties *)

(** ** The helpers on known values *)

Example hex_known : hex [Byte.x32; Byte.x93; Byte.x9b; Byte.x0a] = "32939b0a".
Proof. reflexivity. Qed.

Example urlsafe_b64encode_known :
  urlsafe_b64encode (b "foobar") = b "Zm9vYmFy"
  ∧ urlsafe_b64encode (b "fo") = b "Zm8="
  ∧ urlsafe_b64encode (b "f") = b "Zg=="
  ∧ urlsafe_b64encode [Byte.xfb; Byte.xff] = b "-_8=".
Proof. repeat split. Qed.

Example utf8_valid_known :
  utf8_valid (b "0x32939b") = true
  ∧ utf8_valid [Byte.xe2; Byte.x82; Byte.xac] = true      (* U+20AC *)
  ∧ utf8_valid [Byte.xc0; Byte.x80] = false               (* overlong *)
  ∧ utf8_valid [Byte.xed; Byte.xa0; Byte.x80] = false     (* surrogate *)
  ∧ utf8_valid [Byte.xe2; Byte.x82] = false               (* cut short *)
  ∧ utf8_valid [Byte.xff] = false.
Proof. repeat split. Qed.

Example split_path_known :
  split_path "/a/b/c" = ("/a/b", "c")
  ∧ split_path "/a" = ("/", "a")
  ∧ split_path "a" = ("", "a")
  ∧ split_path "a//b/" = ("a//b", "")
  ∧ dirname "~/.bittensor/wallets/default/coldkey" = "~/.bittensor/wallets/default".
Proof. repeat split. Qed.

Example scan_environment_known :
  scan_environment double_libs [("HOME", "/root"); ("bt_cold_pw_Default", "hunter2")] "default"
  = Some "hunter2".
Proof. reflexivity. Qed.

Example dict_known :
  dict (JArr [JStr "ab"; JArr [JStr "a"; JNull]]) = Ok [(JStr "a", JNull)]
  ∧ dict (JStr "") = Ok []
  ∧ dict (JInt 1) = Raise (OtherError "TypeError")
  ∧ dict (JArr [JArr [JInt 1; JStr "a"]; JArr [JFloat (FFinite false 1 0); JStr "b"];
                JArr [JBool true; JStr "c"]; JArr [JStr "1"; JStr "d"]])
    = Ok [(JInt 1, JStr "c"); (JStr "1", JStr "d")]
  ∧ dict (JArr [JObj [("a", JInt 1); ("a", JInt 2)]]) = Raise (OtherError "ValueError")
  ∧ dict (JObj [("a", JInt 1); ("a", JInt 2); ("b", JInt 3)])
    = Ok [(JStr "a", JInt 2); (JStr "b", JInt 3)].
Proof. repeat split. Qed.

(** The run of [test_overwriting]: the second [set_keypair] is refused and
    the vault written by the first one stays. *)
Example overwriting_refused :
  let w1 := (set_keypair double_libs {| path := "/w/coldkey"; name := "w" |}
               alice true true (Some "thisisafakepassword")
               (mkWorld {[ "/w" := Dir ]} 18 ["n"] [] 0 [])).2 in
  let run := set_keypair double_libs {| path := "/w/coldkey"; name := "w" |}
               (mkKeypair None None None None (Some "5Bob")) true false
               (Some "thisisafakepassword") w1 in
  run.1 = Raise (KeyFileError (NotWritable "/w/coldkey"))
  ∧ fs run.2 !! "/w/coldkey" = fs w1 !! "/w/coldkey"
  ∧ fs w1 !! "/w/coldkey" = Some (File (b "$ANSIBLE_VAULT;1.1;AES256{}") 384).
Proof. vm_compute. repeat split. Qed.

(** ** Format detection *)

Lemma magic_lengths : length vault_magic = 14 ∧ length legacy_magic = 6.
Proof. split; reflexivity. Qed.

Lemma is_ansible_spec d :
  keyfile_data_is_encrypted_ansible d = true ↔ take 14 d = vault_magic.
Proof. unfold keyfile_data_is_encrypted_ansible. apply bool_decide_eq_true. Qed.

Lemma is_legacy_spec d :
  keyfile_data_is_encrypted_legacy d = true ↔ take 6 d = legacy_magic.
Proof. unfold keyfile_data_is_encrypted_legacy. apply bool_decide_eq_true. Qed.

(** The two markers differ in their first byte. *)
Lemma magics_exclusive d :
  take 14 d = vault_magic → take 6 d = legacy_magic → False.
Proof.
  destruct d as [|x d]; [discriminate|].
  cbn. intros Hv Hl. injection Hv as Hx _. injection Hl as Hx' _.
  rewrite Hx in Hx'. discriminate.
Qed.

(** C3. Classification looks at the leading bytes only: Vault exactly when the
    first 14 bytes are the Vault marker, Legacy exactly when they are not and
    the first 6 bytes are the Legacy marker, Plaintext otherwise.  The Vault
    test comes first, no input carries both markers, and "encrypted" means
    Vault or Legacy. *)
Theorem classify_prefix_exact (d : bytes) :
  classify d =
    (if bool_decide (take 14 d = vault_magic) then Vault
     else if bool_decide (take 6 d = legacy_magic) then Legacy
     else Plaintext)
  ∧ (classify d = Vault ↔ take 14 d = vault_magic)
  ∧ (classify d = Legacy ↔ take 14 d ≠ vault_magic ∧ take 6 d = legacy_magic)
  ∧ (classify d = Legacy ↔ take 6 d = legacy_magic)
  ∧ (classify d = Plaintext ↔ take 14 d ≠ vault_magic ∧ take 6 d ≠ legacy_magic)
  ∧ ¬ (take 14 d = vault_magic ∧ take 6 d = legacy_magic)
  ∧ keyfile_data_is_encrypted d = bool_decide (classify d ≠ Plaintext).
Proof.
  pose proof (magics_exclusive d) as Hex.
  unfold classify, keyfile_data_is_encrypted,
    keyfile_data_is_encrypted_ansible, keyfile_data_is_encrypted_legacy.
  fold vault_magic legacy_magic.
  destruct (decide (take 14 d = vault_magic)) as [Hv|Hv];
    destruct (decide (take 6 d = legacy_magic)) as [Hl|Hl];
    rewrite ?(bool_decide_eq_true_2 _ Hv), ?(bool_decide_eq_false_2 _ Hv),
            ?(bool_decide_eq_true_2 _ Hl), ?(bool_decide_eq_false_2 _ Hl);
    try (exfalso; tauto);
    (split; [reflexivity|]);
    repeat (split; [intuition (try discriminate; try tauto)|]);
    reflexivity.
Qed.

(** ** Decrypt *)

Ltac unfold_M :=
  unfold mbind, M_bind, mret, M_ret, bind, ret, raise, lift, try_except,
    get_world, log, print, set_fs in *.

Lemma add_events_nil w : add_events w [] = w.
Proof. destruct w; unfold add_events; cbn. by rewrite app_nil_r. Qed.

Lemma add_events_app w evs1 evs2 :
  add_events (add_events w evs1) evs2 = add_events w (evs1 ++ evs2).
Proof. unfold add_events; cbn. by rewrite app_assoc. Qed.

(** What [decrypt_keyfile_data] does once the password is known. *)
Lemma decrypt_with_password L d pw cn w :
  decrypt_keyfile_data L d (Some pw) cn w =
  match classify d with
  | Vault =>
    let w' := add_events w [VaultLoad pw d] in
    match vault_load L pw d with
    | Ok v => (Ok (normalize L v), w')
    | Raise e => (Raise (as_raised vault_caught e), w')
    end
  | Legacy =>
    match pbkdf2_hmac L SHA256 __SALT 32 10000000 (encode pw) with
    | Raise e => (Raise (as_raised is_invalid_signature_key_token e), add_events w [kdf_call pw])
    | Ok derived =>
      let key := urlsafe_b64encode derived in
      let w' := add_events w [kdf_call pw; FernetDecrypt key d] in
      match fernet_decrypt L key d with
      | Ok data => (Ok data, w')
      | Raise e => (Raise (as_raised is_invalid_signature_key_token e), w')
      end
    end
  | Plaintext => (Raise (KeyFileError (DataCorrupt d)), w)
  end.
Proof.
  unfold decrypt_keyfile_data, classify, legacy_key.
  assert (Hpw : (match cn, Some pw with
                 | Some c, None => get_coldkey_password_from_environment L c
                 | _, _ => mret (Some pw)
                 end) w = (Ok (Some pw), w)) by (destruct cn; reflexivity).
  unfold_M. rewrite Hpw. clear Hpw.
  destruct (keyfile_data_is_encrypted_ansible d).
  - cbn. fold (add_events w [VaultLoad pw d]).
    destruct (vault_load L pw d) as [v|e]; cbn.
    + by destruct v.
    + unfold as_raised, vault_caught.
      destruct e; cbn; reflexivity.
  - destruct (keyfile_data_is_encrypted_legacy d); [|reflexivity].
    cbn -[urlsafe_b64encode __SALT]. fold (kdf_call pw). fold (add_events w [kdf_call pw]).
    destruct (pbkdf2_hmac L SHA256 __SALT 32 10000000 (encode pw)) as [derived|e];
      cbn -[urlsafe_b64encode __SALT].
    + rewrite <- app_assoc. cbn -[urlsafe_b64encode __SALT].
      fold (add_events w [kdf_call pw; FernetDecrypt (urlsafe_b64encode derived) d]).
      destruct (fernet_decrypt L (urlsafe_b64encode derived) d) as [data|e];
        cbn -[urlsafe_b64encode __SALT]; [reflexivity|].
      unfold as_raised. destruct e; reflexivity.
    + unfold as_raised. destruct e; reflexivity.
Qed.

(** The case analysis of [decrypt_keyfile_data] with the password [pw]
    given:
    - on a Vault blob the result is what the vault library returns; of its
      exceptions, [AnsibleVaultError] (and the three signature, key and token
      errors) become ['Invalid password'], every other one is passed on as it
      is, so ['Invalid password'] is raised exactly for those, and the
      "corrupt" error is never produced by the module on this path;
    - on a Legacy blob a token the cipher rejects ([InvalidToken], the wrong
      password) gives ['Invalid password'];
    - on a blob with neither marker the "corrupt" error is raised and the
      world, its record of library calls included, is untouched. *)
Theorem decrypt_failure_cases (L : Libs) (d : bytes) (pw : string)
    (cn : option string) (w : world) :
  let run := decrypt_keyfile_data L d (Some pw) cn w in
  (classify d = Vault →
     (∀ e, vault_load L pw d = Raise e → run.1 = Raise (as_raised vault_caught e))
   ∧ (vault_load L pw d = Raise AnsibleVaultError → run.1 = Raise (KeyFileError InvalidPassword))
   ∧ (run.1 = Raise (KeyFileError InvalidPassword) ↔
        ∃ e, vault_load L pw d = Raise e
             ∧ (vault_caught e = true ∨ e = KeyFileError InvalidPassword))
   ∧ (∀ x, run.1 = Raise (KeyFileError (DataCorrupt x)) →
           vault_load L pw d = Raise (KeyFileError (DataCorrupt x)))
   ∧ trace run.2 = trace w ++ [VaultLoad pw d])
  ∧ (classify d = Legacy →
     ∀ derived,
       pbkdf2_hmac L SHA256 __SALT 32 10000000 (encode pw) = Ok derived →
       fernet_decrypt L (urlsafe_b64encode derived) d = Raise InvalidToken →
       run.1 = Raise (KeyFileError InvalidPassword))
  ∧ (classify d = Plaintext →
     run = (Raise (KeyFileError (DataCorrupt d)), w)).
Proof.
  intros run. subst run. rewrite decrypt_with_password.
  split; [|split]; intros Hc; rewrite Hc.
  - destruct (vault_load L pw d) as [v|e]; cbn.
    + repeat split; try discriminate.
      intros (e & He & _). discriminate.
    + repeat split.
      * intros e' [= <-]. reflexivity.
      * intros [= ->]. reflexivity.
      * intros H. exists e. split; [reflexivity|].
        unfold as_raised in H. destruct (vault_caught e); [by left|].
        right. congruence.
      * intros (e' & [= <-] & [H| ->]); unfold as_raised; [by rewrite H|reflexivity].
      * intros x H. unfold as_raised in H. destruct (vault_caught e); congruence.
  - intros derived -> Hf. cbv zeta. rewrite Hf. reflexivity.
  - reflexivity.
Qed.

Lemma decrypt_failure_cases_witness :
  classify (b "not a keyfile") = Plaintext
  ∧ decrypt_keyfile_data double_libs (b "not a keyfile") (Some "hunter2") None empty_world
    = (Raise (KeyFileError (DataCorrupt (b "not a keyfile"))), empty_world).
Proof.
  split; [reflexivity|].
  apply (decrypt_failure_cases double_libs (b "not a keyfile") "hunter2" None empty_world).
  reflexivity.
Defined.

(** C1, at the input where the code leaves the claim.  On a blob under the
    Vault marker the only exception of the vault library that line 215
    catches is [AnsibleVaultError], and the outer [except] of line 228 adds
    the signature, key and token errors; any other exception leaves
    [decrypt_keyfile_data] as the library raised it, after the one call of
    [load].  The library's format error for an envelope it cannot parse is
    such an exception: a file cut down to the marker ends in
    [AnsibleVaultFormatError], and in no [KeyFileError], neither the
    "corrupt" one nor ['Invalid password'], under any password. *)
Theorem decrypt_malformed_vault_escapes (L : Libs) (d : bytes) (pw : string)
    (cn : option string) (w : world) :
  classify d = Vault →
  let run := decrypt_keyfile_data L d (Some pw) cn w in
  (∀ e, vault_load L pw d = Raise e → vault_caught e = false →
        run = (Raise e, add_events w [VaultLoad pw d]))
  ∧ (vault_load L pw d = Raise AnsibleVaultFormatError →
     run = (Raise AnsibleVaultFormatError, add_events w [VaultLoad pw d])
     ∧ ∀ msg, run.1 ≠ Raise (KeyFileError msg))
  ∧ (∀ x, run.1 = Raise (KeyFileError (DataCorrupt x)) →
          vault_load L pw d = Raise (KeyFileError (DataCorrupt x))).
Proof.
  intros Hc run. subst run. rewrite decrypt_with_password, Hc. cbv zeta.
  split; [|split].
  - intros e -> He. unfold as_raised. by rewrite He.
  - intros ->. split; [reflexivity|]. intros msg. discriminate.
  - intros x. destruct (vault_load L pw d) as [v|e]; cbn; [discriminate|].
    unfold as_raised. destruct (vault_caught e); congruence.
Qed.

Lemma decrypt_malformed_vault_escapes_witness :
  classify (b "$ANSIBLE_VAULT") = Vault
  ∧ (∀ pw, vault_load double_libs pw (b "$ANSIBLE_VAULT") = Raise AnsibleVaultFormatError)
  ∧ decrypt_keyfile_data double_libs (b "$ANSIBLE_VAULT") (Some "hunter2") None empty_world
    = (Raise AnsibleVaultFormatError,
       add_events empty_world [VaultLoad "hunter2" (b "$ANSIBLE_VAULT")]).
Proof.
  split; [reflexivity|]. split; [reflexivity|].
  exact (proj1 (proj1 (proj2 (decrypt_malformed_vault_escapes double_libs
                  (b "$ANSIBLE_VAULT") "hunter2" None empty_world eq_refl)) eq_refl)).
Defined.

(** C2. On a Legacy blob the key comes from one PBKDF2-HMAC-SHA256 call with
    the fixed 63-byte salt, output length 32 and 10,000,000 iterations over
    the encoded password; its URL-safe base64 encoding keys the token cipher,
    which is given the whole blob.  The key depends on the password alone. *)
Theorem legacy_key_derivation (L : Libs) (d : bytes) (pw : string)
    (cn : option string) (w : world) (derived : bytes) :
  classify d = Legacy →
  pbkdf2_hmac L SHA256
    (b "Iguesscyborgslikemyselfhaveatendencytobeparanoidaboutourorigins")
    32 10000000 (encode pw) = Ok derived →
  let key := urlsafe_b64encode derived in
  decrypt_keyfile_data L d (Some pw) cn w =
    (match fernet_decrypt L key d with
     | Ok data => Ok data
     | Raise e => Raise (as_raised is_invalid_signature_key_token e)
     end,
     add_events w
       [Pbkdf2 SHA256 (b "Iguesscyborgslikemyselfhaveatendencytobeparanoidaboutourorigins")
               32 10000000 (encode pw);
        FernetDecrypt key d])
  ∧ (∀ w', (legacy_key L pw w').1 = Ok key)
  ∧ (∀ d' cn' w', classify d' = Legacy →
       ∃ r, decrypt_keyfile_data L d' (Some pw) cn' w' =
            (r, add_events w' [kdf_call pw; FernetDecrypt key d'])).
Proof.
  intros Hc Hk key. fold __SALT in Hk |- *. fold (kdf_call pw).
  split; [|split].
  - rewrite decrypt_with_password, Hc, Hk. subst key. cbv zeta.
    by destruct (fernet_decrypt L _ d).
  - intros w'. unfold legacy_key. unfold_M. cbn -[urlsafe_b64encode __SALT].
    rewrite Hk. reflexivity.
  - intros d' cn' w' Hc'. rewrite decrypt_with_password, Hc', Hk. subst key. cbv zeta.
    destruct (fernet_decrypt L _ d'); eexists; reflexivity.
Qed.

Lemma legacy_key_derivation_witness :
  (legacy_key double_libs "hunter2" empty_world).1
  = Ok (urlsafe_b64encode (take 32 (encode "hunter2" ++ __SALT))).
Proof.
  refine (proj1 (proj2 (legacy_key_derivation double_libs (b "gAAAAAtoken") "hunter2"
                          None empty_world _ _ _)) empty_world); reflexivity.
Defined.

(** ** KeyRecord codec *)

Example json_data_alice :
  json_data alice =
    [("accountId", JStr "0x32939b"); ("publicKey", JStr "0x32939b");
     ("secretPhrase", JStr "bottom drive obey lake");
     ("secretSeed", JStr "0xe5be"); ("ss58Address", JStr "5DD26kC2")].
Proof. reflexivity. Qed.

(** C4 as the specification words it does not hold: the record has no field
    named [address]; its first field is [accountId]. *)
Lemma encode_field_names_not_as_specified :
  ((json_data alice).*1) ≠ ["address"; "publicKey"; "secretPhrase"; "secretSeed"; "ss58Address"]
  ∧ ("address" ∉ (json_data alice).*1)
  ∧ ("accountId" ∈ (json_data alice).*1).
Proof.
  split; [discriminate|]. split.
  - intros H. apply list_elem_of_In in H. cbn in H. intuition discriminate.
  - apply list_elem_of_In. cbn. tauto.
Qed.

(** C4, amended.  Encoding is a total function of the keypair; what it hands
    to [json.dumps] is a record with exactly the five fields [accountId],
    [publicKey], [secretPhrase], [secretSeed], [ss58Address], in this order,
    each one a string or null. *)
Theorem encode_five_fields (L : Libs) (keypair : Keypair) :
  serialized_keypair_to_keyfile_data L keypair
    = encode (json_dumps L (JObj (json_data keypair)))
  ∧ ((json_data keypair).*1)
    = ["accountId"; "publicKey"; "secretPhrase"; "secretSeed"; "ss58Address"]
  ∧ Forall nullable_string ((json_data keypair).*2).
Proof.
  split; [reflexivity|]. split; [reflexivity|].
  assert (Hn : ∀ v, nullable_string (or_null v))
    by (intros [s|]; [right; by exists s|by left]).
  unfold json_data. cbn [fmap list_fmap snd]. repeat (constructor; [apply Hn|]).
  constructor.
Qed.

Lemma present_holds k d v : holds k d v → present k d = Some v.
Proof. intros [Hg Hn]. unfold present. rewrite Hg. by destruct v. Qed.

Lemma present_absent k d : absent_or_null k d → present k d = None.
Proof. intros [Hg|Hg]; unfold present; by rewrite Hg. Qed.

(** C5. When the bytes are text that parses into a record [d], the keypair is
    rebuilt from [secretSeed] if that is not null, whatever else is there;
    otherwise from [secretPhrase] if that is not null; otherwise from
    [ss58Address] alone; and when none of the three is there the call raises
    [KeyFileError] with the record in its message. *)
Theorem decode_field_priority (L : Libs) (data : bytes) (text : string)
    (j : json) (d : pydict) :
  decode data = Ok text →
  json_loads L text = Ok j →
  dict j = Ok d →
  let run := deserialize_keypair_from_keyfile_data L data in
  (∀ seed, holds "secretSeed" d seed → run = create_from_seed L seed)
  ∧ (∀ phrase, absent_or_null "secretSeed" d → holds "secretPhrase" d phrase →
       run = create_from_mnemonic L phrase)
  ∧ (∀ address, absent_or_null "secretSeed" d → absent_or_null "secretPhrase" d →
       holds "ss58Address" d address → run = Keypair_ss58_address L address)
  ∧ (absent_or_null "secretSeed" d → absent_or_null "secretPhrase" d →
       absent_or_null "ss58Address" d →
       run = Raise (KeyFileError (NoKeypairFromDict d))).
Proof.
  intros Hdec Hj Hd run. subst run.
  unfold deserialize_keypair_from_keyfile_data, load_keyfile_dict.
  rewrite Hdec. cbn. rewrite Hj. cbn. rewrite Hd.
  unfold mbind, result_bind.
  repeat split.
  - intros seed H. by rewrite (present_holds _ _ _ H).
  - intros phrase H1 H2. by rewrite (present_absent _ _ H1), (present_holds _ _ _ H2).
  - intros address H1 H2 H3.
    by rewrite (present_absent _ _ H1), (present_absent _ _ H2), (present_holds _ _ _ H3).
  - intros H1 H2 H3.
    by rewrite (present_absent _ _ H1), (present_absent _ _ H2), (present_absent _ _ H3).
Qed.

Lemma decode_field_priority_witness :
  deserialize_keypair_from_keyfile_data double_libs (encode sample_text)
  = Ok (mkKeypair None None None (Some (inl "0x01")) None).
Proof.
  refine (proj1 (decode_field_priority double_libs (encode sample_text) sample_text
                   sample_record
                   [(JStr "secretPhrase", JStr "bottom drive obey lake");
                    (JStr "secretSeed", JStr "0x01");
                    (JStr "ss58Address", JStr "5Grw")] _ _ _) (JStr "0x01") _);
    try reflexivity.
  split; [reflexivity|discriminate].
Defined.

(** What the fallback of lines 71-83 does on text that is not a record. *)
Lemma decode_unparsed_text (L : Libs) (data : bytes) (text : string) :
  decode data = Ok text →
  (∀ d, (j ← json_loads L text; dict j) ≠ Ok d) →
  deserialize_keypair_from_keyfile_data L data =
    if bool_decide (substring 0 2 text = "0x") then
      address ← ss58_encode L text; Keypair_ss58_address L (JStr address)
    else Raise (KeyFileError (NoKeypairFromText text)).
Proof.
  intros Hdec Hno.
  unfold deserialize_keypair_from_keyfile_data, load_keyfile_dict.
  rewrite Hdec. cbn.
  destruct (json_loads L text ≫= dict) as [d|e] eqn:E; [by destruct (Hno d)|].
  case_bool_decide; [|reflexivity].
  destruct (ss58_encode L text) as [address|e']; reflexivity.
Qed.

(** An address the encoder refuses: its exception is passed on as it is. *)
Lemma decode_refused_address (L : Libs) (data : bytes) (text : string) (e : exn) :
  decode data = Ok text →
  (∀ d, (j ← json_loads L text; dict j) ≠ Ok d) →
  substring 0 2 text = "0x" →
  ss58_encode L text = Raise e →
  deserialize_keypair_from_keyfile_data L data = Raise e.
Proof.
  intros Hdec Hno Hx He.
  rewrite (decode_unparsed_text L data text Hdec Hno).
  rewrite bool_decide_eq_true_2 by done. by rewrite He.
Qed.

(** C6, at the input where the code leaves the claim: the one byte [0xff] is
    not UTF-8, so line 68 raises before the [try] is entered; the call ends
    in [UnicodeDecodeError], whatever the libraries do, and not in
    [KeyFileError]. *)
Theorem decode_non_utf8_escapes (L : Libs) :
  decode [Byte.xff] = Raise UnicodeDecodeError
  ∧ deserialize_keypair_from_keyfile_data L [Byte.xff] = Raise UnicodeDecodeError
  ∧ ∀ msg, deserialize_keypair_from_keyfile_data L [Byte.xff] ≠ Raise (KeyFileError msg).
Proof. split; [reflexivity|]. split; [reflexivity|discriminate]. Qed.

(** ** Password policy *)

Lemma read_line_run prompt w :
  read_line prompt w =
    match stdin w with
    | [] => (Raise EOFError, w)
    | answer :: rest => (Ok answer, answered w prompt answer rest)
    end.
Proof. reflexivity. Qed.

(** [validate_password] on a password that is not empty. *)
Lemma validate_password_run (L : Libs) (p : string) (w : world) :
  p ≠ "" →
  validate_password L (Some p) w =
    match policy_test L the_policy p with
    | _ :: _ =>
      (Ok false,
       add_events w [Printed "Password not strong enough. Try increasing the length of the password or the password complexity"])
    | [] =>
      match stdin w with
      | [] => (Raise EOFError, w)
      | retyped :: rest =>
        let w' := answered w "Retype your password: " retyped rest in
        if bool_decide (retyped = p) then (Ok true, w')
        else (Ok false, add_events w' [Printed "Passwords do not match"])
      end
    end.
Proof.
  intros Hp. destruct p as [|c s]; [done|].
  unfold validate_password. cbn [truthy_str]. fold the_policy.
  destruct (policy_test L the_policy (String c s)) as [|t ts]; cbn [length].
  - rewrite bool_decide_eq_false_2 by lia.
    unfold getpass. unfold_M. rewrite read_line_run.
    destruct (stdin w) as [|retyped rest]; [reflexivity|]. cbv zeta.
    destruct (decide (retyped = String c s)) as [->|Hne].
    + rewrite bool_decide_eq_false_2 by tauto. by rewrite bool_decide_eq_true_2.
    + rewrite bool_decide_eq_true_2 by congruence. by rewrite bool_decide_eq_false_2.
  - rewrite bool_decide_eq_true_2 by lia. reflexivity.
Qed.

(** C9. [validate_password] returns [False] without raising for [None] and
    for the empty password; for a password on which the policy built with
    strength 0.20, 10 entropy bits and length 6 reports a failed test (no
    confirmation is asked then); and for a password that passes when the
    retyped line differs.  It returns [True] exactly when the policy reports
    nothing and the retyped line is the password itself. *)
Theorem validate_password_cases (L : Libs) (w : world) :
  let policy := from_names "0.20" 10 6 in
  validate_password L None w = (Ok false, w)
  ∧ validate_password L (Some "") w = (Ok false, w)
  ∧ ∀ p, p ≠ "" →
      (policy_test L policy p ≠ [] →
         (validate_password L (Some p) w).1 = Ok false
         ∧ stdin (validate_password L (Some p) w).2 = stdin w)
    ∧ (∀ retyped rest, policy_test L policy p = [] → stdin w = retyped :: rest →
         (validate_password L (Some p) w).1 = Ok (bool_decide (retyped = p)))
    ∧ ((validate_password L (Some p) w).1 = Ok true ↔
         policy_test L policy p = [] ∧ ∃ rest, stdin w = p :: rest).
Proof.
  intros policy. split; [reflexivity|]. split; [reflexivity|].
  intros p Hp. rewrite (validate_password_run L p w Hp).
  subst policy. change (from_names "0.20" 10 6) with the_policy.
  destruct (policy_test L the_policy p) as [|t ts].
  - split; [done|]. split.
    + intros retyped rest _ ->. cbv zeta. by case_bool_decide.
    + destruct (stdin w) as [|retyped rest]; cbv zeta.
      * split; [discriminate|]. intros [_ [rest [=]]].
      * case_bool_decide as H1; cbn; split.
        -- intros _. split; [done|]. exists rest. by rewrite H1.
        -- done.
        -- discriminate.
        -- intros [_ [rest' [= -> _]]]. done.
  - split; [done|]. split; [discriminate|].
    split; [discriminate|]. intros [[=] _].
Qed.

Lemma validate_password_cases_witness :
  (validate_password double_libs (Some "pass") empty_world).1 = Ok false
  ∧ (validate_password double_libs (Some "biTTensor")
       (mkWorld ∅ 18 ["biTTenso"] [] 0 [])).1 = Ok false
  ∧ (validate_password double_libs (Some "biTTensor")
       (mkWorld ∅ 18 ["biTTensor"] [] 0 [])).1 = Ok true.
Proof.
  split; [|split].
  - refine (proj1 (proj1 (proj2 (proj2 (validate_password_cases double_libs empty_world))
                            "pass" _) _)); discriminate.
  - refine (proj1 (proj2 (proj2 (proj2 (validate_password_cases double_libs
                            (mkWorld ∅ 18 ["biTTenso"] [] 0 []))) "biTTensor" _))
                  "biTTenso" [] _ _); done.
  - refine (proj1 (proj2 (proj2 (proj2 (validate_password_cases double_libs
                            (mkWorld ∅ 18 ["biTTensor"] [] 0 []))) "biTTensor" _))
                  "biTTensor" [] _ _); done.
Defined.

(** ** The keyfile object *)

Lemma exists_on_device_run self w :
  exists_on_device self w =
    (Ok (match lookup_path (fs w) (path self) with Some (File _ _) => true | _ => false end), w).
Proof.
  unfold exists_on_device, path_isfile, stat_path. unfold_M.
  by destruct (lookup_path (fs w) (path self)) as [[]|].
Qed.

Lemma may_overwrite_run self w :
  _may_overwrite self w =
    match stdin w with
    | [] => (Raise EOFError, w)
    | choice :: rest =>
      (Ok (bool_decide (choice = "y")), answered w (overwrite_prompt self) choice rest)
    end.
Proof.
  unfold _may_overwrite, input. unfold_M. rewrite read_line_run.
  by destruct (stdin w).
Qed.

(** Writing and [chmod] neither read the console nor leave events. *)
Lemma write_node_run p n w :
  write_node p n w =
    (Ok tt, mkWorld (<[p := n]> (fs w)) (umask w) (stdin w) (environ w) (urandom w) (trace w)).
Proof. reflexivity. Qed.

Lemma check_parent_same p r w w' : check_parent p w = (r, w') → w' = w.
Proof.
  unfold check_parent, stat_path. unfold_M.
  destruct (split_path p) as [head tail].
  case_bool_decide; [by intros [= _ ->]|].
  destruct (lookup_path _ _) as [[]|]; by intros [= _ ->].
Qed.

Lemma write_file_same_console p data r w w' :
  write_file p data w = (r, w') → same_console w w'.
Proof.
  unfold write_file, stat_path. unfold_M.
  destruct (lookup_path (fs w) p) as [[d m|]|].
  - case_bool_decide; intros [= _ <-]; by split.
  - intros [= _ <-]; by split.
  - case_bool_decide; [intros [= _ <-]; by split|].
    destruct (check_parent p w) as [[[]|e] w1] eqn:E;
      apply check_parent_same in E as ->; intros [= _ <-]; by split.
Qed.

Lemma chmod_same_console p mode r w w' :
  chmod p mode w = (r, w') → same_console w w'.
Proof.
  unfold chmod, stat_path. unfold_M.
  destruct (lookup_path (fs w) p) as [[d m|]|]; intros [= _ <-]; by split.
Qed.

(** The gate of lines 433-435 when the file is there and [overwrite] is off. *)
Lemma write_gate self data w data0 mode :
  holds_file w (path self) data0 mode →
  let run := _write_keyfile_data_to_file self data false w in
  match stdin w with
  | [] => run = (Raise EOFError, w)
  | choice :: rest =>
    if bool_decide (choice = "y")
    then trace run.2 = trace w ++ [Asked (overwrite_prompt self) choice]
    else run = (Raise (KeyFileError (NotWritable (path self))),
                answered w (overwrite_prompt self) choice rest)
  end.
Proof.
  intros Hf run. subst run. unfold _write_keyfile_data_to_file.
  unfold_M. rewrite exists_on_device_run.
  unfold holds_file in Hf. rewrite Hf. cbn [andb negb].
  rewrite may_overwrite_run.
  destruct (stdin w) as [|choice rest]; [reflexivity|].
  case_bool_decide as Hy; cbn [negb]; [|reflexivity].
  destruct (write_file (path self) data _) as [[[]|e] w1] eqn:E1;
    apply write_file_same_console in E1 as [_ E1]; [|cbn; by rewrite E1].
  destruct (chmod (path self) _ w1) as [r2 w2] eqn:E2.
  apply chmod_same_console in E2 as [_ E2]. cbn. by rewrite E2, E1.
Qed.

(** C10. The answer to the overwrite prompt grants the write exactly when it
    is the one-character string [y]; with any other answer the pending write
    on an existing file raises [KeyFileError] and the file system is as
    before. *)
Theorem may_overwrite_only_y (self : keyfile) (w : world) (choice : string)
    (rest : list string) :
  stdin w = choice :: rest →
  (_may_overwrite self w).1 = Ok (bool_decide (choice = "y"))
  ∧ ((_may_overwrite self w).1 = Ok true ↔ choice = "y")
  ∧ (∀ data data0 mode, choice ≠ "y" → holds_file w (path self) data0 mode →
       let run := _write_keyfile_data_to_file self data false w in
       run.1 = Raise (KeyFileError (NotWritable (path self)))
       ∧ fs run.2 = fs w).
Proof.
  intros Hin. rewrite may_overwrite_run, Hin. cbn [fst].
  split; [reflexivity|]. split.
  - case_bool_decide; split; try done; intros [=].
  - intros data data0 mode Hne Hf.
    pose proof (write_gate self data w data0 mode Hf) as H.
    cbv zeta in H. rewrite Hin in H.
    rewrite bool_decide_eq_false_2 in H by done. by rewrite H.
Qed.

Lemma may_overwrite_only_y_witness :
  (_may_overwrite coldkey (world_with_coldkey ["Y"])).1 = Ok false
  ∧ (_may_overwrite coldkey (world_with_coldkey ["yes"])).1 = Ok false
  ∧ (_may_overwrite coldkey (world_with_coldkey [""])).1 = Ok false
  ∧ (_may_overwrite coldkey (world_with_coldkey ["y"])).1 = Ok true.
Proof.
  split; [|split; [|split]].
  - exact (proj1 (may_overwrite_only_y coldkey (world_with_coldkey ["Y"]) "Y" [] eq_refl)).
  - exact (proj1 (may_overwrite_only_y coldkey (world_with_coldkey ["yes"]) "yes" [] eq_refl)).
  - exact (proj1 (may_overwrite_only_y coldkey (world_with_coldkey [""]) "" [] eq_refl)).
  - exact (proj1 (may_overwrite_only_y coldkey (world_with_coldkey ["y"]) "y" [] eq_refl)).
Defined.

(** *** Relations the steps of a call keep between the world before and after *)

Section Respects.
Context (R : world → world → Prop) `{!Reflexive R, !Transitive R}.

Lemma respects_ret {A} (a : A) : respects R (mret a).
Proof. intros w r w' [= _ <-]. reflexivity. Qed.

Lemma respects_raise {A} e : respects R (@raise A e).
Proof. intros w r w' [= _ <-]. reflexivity. Qed.

Lemma respects_lift {A} (x : result A) : respects R (lift x).
Proof. intros w r w' [= _ <-]. reflexivity. Qed.

Lemma respects_get_world : respects R get_world.
Proof. intros w r w' [= _ <-]. reflexivity. Qed.

Lemma respects_bind {A B} (m : M A) (k : A → M B) :
  respects R m → (∀ a, respects R (k a)) → respects R (m ≫= k).
Proof.
  intros Hm Hk w r w'. unfold mbind, M_bind, bind.
  destruct (m w) as [[a|e] w1] eqn:E.
  - intros Hka. transitivity w1; [by eapply Hm|by eapply Hk].
  - intros [= _ <-]. by eapply Hm.
Qed.

Lemma respects_try_except {A} (m : M A) handles handler :
  respects R m → (∀ e, respects R (handler e)) → respects R (try_except m handles handler).
Proof.
  intros Hm Hh w r w'. unfold try_except.
  destruct (m w) as [[a|e] w1] eqn:E.
  - intros [= _ <-]. by eapply Hm.
  - destruct (handles e).
    + intros Hhe. transitivity w1; [by eapply Hm|by eapply Hh].
    + intros [= _ <-]. by eapply Hm.
Qed.
End Respects.

Lemma bind_ok_inv {A B} (m : M A) (k : A → M B) w b w' :
  (m ≫= k) w = (Ok b, w') → ∃ a w1, m w = (Ok a, w1) ∧ k a w1 = (Ok b, w').
Proof.
  unfold mbind, M_bind, bind. destruct (m w) as [[a|e] w1]; [eauto|discriminate].
Qed.

#[global] Instance grows_refl : Reflexive grows.
Proof. by intros w. Qed.

#[global] Instance grows_trans : Transitive grows.
Proof.
  intros w1 w2 w3 (Hs & Ht & Hf) (Hs' & Ht' & Hf').
  split; [congruence|]. split; [congruence|]. eauto.
Qed.

Lemma lookup_path_absent f p : lookup_path f p = None → f !! p = None.
Proof. unfold lookup_path. by destruct (_ && _). Qed.

Lemma lookup_path_insert_other f p q n m :
  f !! p = None → lookup_path f q = Some m → lookup_path (<[p := n]> f) q = Some m.
Proof.
  unfold lookup_path. destruct (_ && _); [done|].
  intros Hp Hq. rewrite lookup_insert_ne; [done|congruence].
Qed.

Lemma stat_path_run p w : stat_path p w = (Ok (lookup_path (fs w) p), w).
Proof. reflexivity. Qed.

Lemma mkdir_grows name : respects grows (mkdir name).
Proof.
  intros w r w'. unfold mkdir. unfold_M. rewrite stat_path_run.
  destruct (lookup_path (fs w) name) as [n|] eqn:E; [by intros [= _ <-]|].
  case_bool_decide; [by intros [= _ <-]|].
  destruct (check_parent name w) as [[[]|e] w1] eqn:E1;
    apply check_parent_same in E1 as ->; [|by intros [= _ <-]].
  intros [= _ <-]. split; [done|]. split; [done|]. cbn. intros q m.
  apply lookup_path_insert_other. by apply lookup_path_absent.
Qed.

Lemma path_exists_grows p : respects grows (path_exists p).
Proof. by intros w r w' [= _ <-]. Qed.

Lemma makedirs_fuel_grows fuel name : respects grows (makedirs_fuel fuel name).
Proof.
  revert name. induction fuel as [|fuel IH]; intros name; cbn [makedirs_fuel].
  - apply respects_raise; apply _.
  - destruct (split_path name) as [head tail].
    destruct (if bool_decide (tail = "") then split_path head else (head, tail))
      as [head' tail'].
    apply respects_bind; try apply _.
    + destruct (_ && _); [|apply respects_ret; apply _].
      apply respects_bind; try apply _; [apply path_exists_grows|].
      intros []; [apply respects_ret; apply _|].
      apply respects_bind; try apply _; [|intros; apply respects_ret; apply _].
      apply respects_try_except; try apply _; [apply IH|].
      intros; apply respects_ret; apply _.
    + intros []; [apply respects_ret; apply _|apply mkdir_grows].
Qed.

Lemma make_dirs_grows self : respects grows (make_dirs self).
Proof.
  unfold make_dirs. apply respects_bind; try apply _; [apply path_exists_grows|].
  intros []; [apply respects_ret; apply _|apply makedirs_fuel_grows].
Qed.

#[global] Instance quiet_refl self : Reflexive (quiet self).
Proof. intros w. split; [done|]. exists []. by rewrite app_nil_r. Qed.

#[global] Instance quiet_trans self : Transitive (quiet self).
Proof.
  intros w1 w2 w3 (Hf & evs & Ht & Hev) (Hf' & evs' & Ht' & Hev').
  split; [congruence|]. exists (evs ++ evs'). split.
  - by rewrite Ht', Ht, app_assoc.
  - by apply Forall_app.
Qed.

Lemma quiet_log self e :
  not_overwrite_prompt self e → respects (quiet self) (log e).
Proof.
  intros He w r w' [= _ <-]. split; [done|]. exists [e]. split; [done|].
  by constructor.
Qed.

Lemma quiet_read_line self prompt :
  prompt ≠ overwrite_prompt self → respects (quiet self) (read_line prompt).
Proof.
  intros Hp w r w'. rewrite read_line_run.
  destruct (stdin w) as [|answer rest]; intros [= _ <-]; [reflexivity|].
  split; [done|]. exists [Asked prompt answer]. split; [done|].
  constructor; [|constructor]. intros a [= ? _]. done.
Qed.

Lemma quiet_draw self : respects (quiet self) draw.
Proof. intros w r w' [= _ <-]. split; [done|]. exists []. by rewrite app_nil_r. Qed.

Section Quiet.
Variable L : Libs.
Variable self : keyfile.

Local Ltac step :=
  first [ apply respects_ret; apply _
        | apply respects_raise; apply _
        | apply respects_lift; apply _
        | apply quiet_draw
        | apply quiet_log; intros ?; discriminate
        | apply quiet_read_line; unfold overwrite_prompt; discriminate
        | apply respects_bind; try apply _; [|intros ?] ].

Lemma validate_password_quiet password :
  respects (quiet self) (validate_password L password).
Proof.
  unfold validate_password, getpass, print. cbv zeta.
  destruct (truthy_str password) as [p|]; [|step].
  destruct (bool_decide (lt 0 _)); repeat step.
  case_bool_decide; repeat step.
Qed.

Lemma ask_password_loop_quiet fuel :
  respects (quiet self) (ask_password_loop L fuel).
Proof.
  induction fuel as [|fuel IH]; cbn [ask_password_loop]; [step|].
  unfold getpass. repeat step; [apply validate_password_quiet|].
  destruct a0; [step|apply IH].
Qed.

Lemma encrypt_keyfile_data_quiet data password :
  respects (quiet self) (encrypt_keyfile_data L data password).
Proof.
  unfold encrypt_keyfile_data. step.
  - destruct password; [step|].
    intros w r w'. unfold ask_password_to_encrypt. apply ask_password_loop_quiet.
  - repeat step.
Qed.
End Quiet.

Lemma grows_file w w' p data mode :
  grows w w' → holds_file w p data mode → holds_file w' p data mode.
Proof. intros (_ & _ & H). apply H. Qed.

(** When the directory is there [make_dirs] does nothing. *)
Lemma make_dirs_present self w :
  lookup_path (fs w) (dirname (path self)) = Some Dir → make_dirs self w = (Ok tt, w).
Proof.
  intros H. unfold make_dirs, path_exists. unfold_M. by rewrite stat_path_run, H.
Qed.

(** With the password given nothing is asked: one draw from the random
    source and one call of the cipher. *)
Lemma encrypt_keyfile_data_given L data pw w :
  encrypt_keyfile_data L data (Some pw) w
  = (vault_encrypt L pw (urandom w) data, after_vault_encrypt w pw data).
Proof. reflexivity. Qed.

(** Every run of [set_keypair] with [overwrite=False] on a path that holds a
    file: either the overwrite question was answered [y], or the call raised
    and the file is as it was; and if the question was answered otherwise,
    the exception is the [KeyFileError] of line 435. *)
Lemma set_keypair_gate L self keypair encrypt password w r w' data0 mode :
  holds_file w (path self) data0 mode →
  set_keypair L self keypair encrypt false password w = (r, w') →
  ∃ evs, trace w' = trace w ++ evs
    ∧ (Asked (overwrite_prompt self) "y" ∈ evs
       ∨ ((∃ e, r = Raise e) ∧ holds_file w' (path self) data0 mode))
    ∧ ∀ answer, Asked (overwrite_prompt self) answer ∈ evs → answer ≠ "y" →
        r = Raise (KeyFileError (NotWritable (path self)))
        ∧ holds_file w' (path self) data0 mode.
Proof.
  intros Hfile Hrun.
  unfold set_keypair in Hrun. unfold mbind at 1 in Hrun. unfold M_bind, bind in Hrun.
  destruct (make_dirs self w) as [r1 w1] eqn:E1.
  pose proof (make_dirs_grows self w r1 w1 E1) as Hg.
  pose proof (grows_file _ _ _ _ _ Hg Hfile) as Hfile1.
  destruct Hg as (_ & Ht1 & _).
  assert (Hquiet : ∀ e w0 evs0, r = Raise e → w' = w0 →
            holds_file w0 (path self) data0 mode →
            trace w0 = trace w ++ evs0 → Forall (not_overwrite_prompt self) evs0 →
            ∃ evs, trace w' = trace w ++ evs
              ∧ (Asked (overwrite_prompt self) "y" ∈ evs
                 ∨ ((∃ e, r = Raise e) ∧ holds_file w' (path self) data0 mode))
              ∧ ∀ answer, Asked (overwrite_prompt self) answer ∈ evs → answer ≠ "y" →
                  r = Raise (KeyFileError (NotWritable (path self)))
                  ∧ holds_file w' (path self) data0 mode).
  { intros e w0 evs0 -> -> Hf0 Ht0 Hall. exists evs0. split; [done|]. split.
    - right. split; [by exists e|done].
    - intros answer Hin _. rewrite Forall_forall in Hall.
      by destruct (Hall _ Hin answer). }
  destruct r1 as [[]|e1].
  2: { injection Hrun as <- <-. apply (Hquiet e1 w1 []); try done.
       by rewrite Ht1, app_nil_r. }
  unfold mbind at 1 in Hrun. unfold M_bind, bind in Hrun.
  set (enc := if encrypt then _ else _) in Hrun.
  assert (Hq : respects (quiet self) enc).
  { subst enc. destruct encrypt; [apply encrypt_keyfile_data_quiet|].
    apply respects_ret; apply _. }
  destruct (enc w1) as [r2 w2] eqn:E2.
  destruct (Hq w1 r2 w2 E2) as (Hfs2 & evs2 & Ht2 & Hev2).
  rewrite Ht1 in Ht2.
  assert (Hfile2 : holds_file w2 (path self) data0 mode).
  { unfold holds_file in *. by rewrite Hfs2. }
  destruct r2 as [data|e2].
  2: { injection Hrun as <- <-. by apply (Hquiet e2 w2 evs2). }
  pose proof (write_gate self data w2 data0 mode Hfile2) as Hgate.
  cbv zeta in Hgate. rewrite Hrun in Hgate.
  destruct (stdin w2) as [|choice rest].
  { injection Hgate as -> ->. by apply (Hquiet EOFError w2 evs2). }
  destruct (decide (choice = "y")) as [->|Hc].
  - rewrite bool_decide_eq_true_2 in Hgate by done. cbn in Hgate.
    exists (evs2 ++ [Asked (overwrite_prompt self) "y"]).
    split; [by rewrite Hgate, Ht2, <- app_assoc|]. split.
    + left. apply elem_of_app. right. by apply list_elem_of_singleton.
    + intros answer [Hin|Hin]%elem_of_app Hne.
      * rewrite Forall_forall in Hev2. by destruct (Hev2 _ Hin answer).
      * apply list_elem_of_singleton in Hin. by injection Hin as ->.
  - rewrite bool_decide_eq_false_2 in Hgate by done.
    injection Hgate as -> ->.
    exists (evs2 ++ [Asked (overwrite_prompt self) choice]).
    split; [cbn; by rewrite Ht2, <- app_assoc|].
    split; [right; split; [by eexists|exact Hfile2]|].
    intros _ _ _. split; [done|exact Hfile2].
Qed.

(** C7. [set_keypair] with [overwrite=False] on a path that holds a file, in
    a directory that is there.  When the line of input that the overwrite
    question reads is anything but [y], the call raises [KeyFileError] (the
    one exception class of the module, with the message "Keyfile at: ... is
    not writable"), it has asked the question and read that line, and every
    file has the bytes and the mode it had.  That line is the next line of
    input when nothing is encrypted or the password is given, and the line
    after the password dialogue otherwise.  For every run, whatever the
    input and the libraries do: the call returns only if the question was
    asked and answered [y], and in every other case it raises and leaves the
    file as it was. *)
Theorem set_keypair_overwrite_denied (L : Libs) (self : keyfile) (keypair : Keypair)
    (w : world) (data0 : bytes) (mode : Z) :
  holds_file w (path self) data0 mode →
  let plain := serialized_keypair_to_keyfile_data L keypair in
  let denied := Raise (KeyFileError (NotWritable (path self))) in
  (lookup_path (fs w) (dirname (path self)) = Some Dir →
   (∀ password answer rest,
      stdin w = answer :: rest → answer ≠ "y" →
      let run := set_keypair L self keypair false false password w in
      run = (denied, answered w (overwrite_prompt self) answer rest)
      ∧ fs run.2 = fs w ∧ holds_file run.2 (path self) data0 mode)
   ∧ (∀ pw sealed answer rest,
      vault_encrypt L pw (urandom w) plain = Ok sealed →
      stdin w = answer :: rest → answer ≠ "y" →
      let run := set_keypair L self keypair true false (Some pw) w in
      run = (denied, answered (after_vault_encrypt w pw plain)
                       (overwrite_prompt self) answer rest)
      ∧ fs run.2 = fs w ∧ holds_file run.2 (path self) data0 mode)
   ∧ (∀ password sealed w1 answer rest,
      encrypt_keyfile_data L plain password w = (Ok sealed, w1) →
      stdin w1 = answer :: rest → answer ≠ "y" →
      let run := set_keypair L self keypair true false password w in
      run = (denied, answered w1 (overwrite_prompt self) answer rest)
      ∧ fs run.2 = fs w ∧ holds_file run.2 (path self) data0 mode))
  ∧ (∀ encrypt password r w',
     set_keypair L self keypair encrypt false password w = (r, w') →
     ∃ evs, trace w' = trace w ++ evs
       ∧ (Asked (overwrite_prompt self) "y" ∈ evs
          ∨ ((∃ e, r = Raise e) ∧ holds_file w' (path self) data0 mode))
       ∧ ∀ answer, Asked (overwrite_prompt self) answer ∈ evs → answer ≠ "y" →
           r = denied ∧ holds_file w' (path self) data0 mode).
Proof.
  intros Hfile plain denied. split.
  2: { intros encrypt password r w' Hrun. by eapply set_keypair_gate. }
  intros Hdir.
  assert (Hdeny : ∀ data w1 answer rest,
            fs w1 = fs w → stdin w1 = answer :: rest → answer ≠ "y" →
            let run := _write_keyfile_data_to_file self data false w1 in
            run = (denied, answered w1 (overwrite_prompt self) answer rest)
            ∧ fs run.2 = fs w ∧ holds_file run.2 (path self) data0 mode).
  { intros data w1 answer rest Hfs Hin Hne run.
    assert (Hf1 : holds_file w1 (path self) data0 mode)
      by (unfold holds_file in *; by rewrite Hfs).
    pose proof (write_gate self data w1 data0 mode Hf1) as Hgate.
    cbv zeta in Hgate. rewrite Hin, bool_decide_eq_false_2 in Hgate by done.
    subst run. rewrite Hgate. split; [done|]. split; [exact Hfs|]. exact Hf1. }
  split; [|split].
  - intros password answer rest Hin Hne.
    assert (Hrun : set_keypair L self keypair false false password w
                   = _write_keyfile_data_to_file self plain false w).
    { unfold set_keypair. unfold_M. by rewrite (make_dirs_present _ _ Hdir). }
    cbv zeta. rewrite Hrun. by apply Hdeny.
  - intros pw sealed answer rest Hseal Hin Hne.
    assert (Hrun : set_keypair L self keypair true false (Some pw) w
                   = _write_keyfile_data_to_file self sealed false
                       (after_vault_encrypt w pw plain)).
    { unfold set_keypair. unfold mbind at 1 2. unfold M_bind, bind.
      rewrite (make_dirs_present _ _ Hdir). fold plain.
      by rewrite encrypt_keyfile_data_given, Hseal. }
    cbv zeta. rewrite Hrun. by apply Hdeny.
  - intros password sealed w1 answer rest Henc Hin Hne.
    assert (Hrun : set_keypair L self keypair true false password w
                   = _write_keyfile_data_to_file self sealed false w1).
    { unfold set_keypair. unfold mbind at 1 2. unfold M_bind, bind.
      rewrite (make_dirs_present _ _ Hdir). fold plain. by rewrite Henc. }
    cbv zeta. rewrite Hrun. apply Hdeny; [|done|done].
    by destruct (encrypt_keyfile_data_quiet L self plain password w _ _ Henc) as [Hfs _].
Qed.

Lemma set_keypair_overwrite_denied_witness :
  holds_file (world_with_coldkey ["n"]) "/w/coldkey" (b "0x01") 420
  ∧ set_keypair double_libs coldkey alice true false (Some "hunter2")
      (world_with_coldkey ["n"])
    = (Raise (KeyFileError (NotWritable "/w/coldkey")),
       answered (after_vault_encrypt (world_with_coldkey ["n"]) "hunter2"
                   (serialized_keypair_to_keyfile_data double_libs alice))
         (overwrite_prompt coldkey) "n" [])
  ∧ holds_file (set_keypair double_libs coldkey alice true false (Some "hunter2")
                  (world_with_coldkey ["n"])).2 "/w/coldkey" (b "0x01") 420.
Proof.
  assert (Hfile : holds_file (world_with_coldkey ["n"]) (path coldkey) (b "0x01") 420)
    by reflexivity.
  split; [exact Hfile|].
  pose proof (proj1 (proj2 (proj1 (set_keypair_overwrite_denied double_libs coldkey alice
                (world_with_coldkey ["n"]) (b "0x01") 420 Hfile) eq_refl))
              "hunter2" _ "n" [] eq_refl eq_refl ltac:(discriminate)) as (Hrun & _ & Hkept).
  split; [exact Hrun|exact Hkept].
Defined.

(** *** Permissions after a write *)

Lemma owner_rw_only_0o600 : owner_rw_only (Z.lor S_IRUSR S_IWUSR).
Proof.
  intros i. change (Z.lor S_IRUSR S_IWUSR) with 384%Z.
  destruct (decide (i < 0)%Z) as [Hneg|Hpos].
  { rewrite Z.testbit_neg_r by done. split; [done|lia]. }
  destruct (decide (i < 10)%Z) as [Hlt|Hge].
  - assert (Hi : (i = 0 ∨ i = 1 ∨ i = 2 ∨ i = 3 ∨ i = 4 ∨ i = 5 ∨ i = 6 ∨ i = 7
                  ∨ i = 8 ∨ i = 9)%Z) by lia.
    destruct Hi as [->|[->|[->|[->|[->|[->|[->|[->|[->| ->]]]]]]]]]; cbn;
      split; try done; try lia; tauto.
  - rewrite Z.bits_above_log2; [split; [done|lia]|lia|].
    change (Z.log2 384) with 8%Z. lia.
Qed.

Lemma lookup_path_insert_file f p n data mode :
  lookup_path f p ≠ Some Dir →
  lookup_path (<[p := n]> f) p = Some (File data mode) ↔ n = File data mode.
Proof.
  unfold lookup_path. destruct (_ && _); [done|].
  intros _. rewrite lookup_insert_eq. split; congruence.
Qed.

Lemma write_file_ok p data w w' :
  write_file p data w = (Ok tt, w') →
  ∃ mode, holds_file w' p data mode.
Proof.
  unfold write_file, holds_file. unfold_M. rewrite stat_path_run.
  destruct (lookup_path (fs w) p) as [[d m|]|] eqn:E.
  - case_bool_decide; [|discriminate]. intros [= <-]. exists m. cbn.
    apply lookup_path_insert_file; [by rewrite E|done].
  - discriminate.
  - case_bool_decide; [discriminate|].
    destruct (check_parent p w) as [[[]|e] w1] eqn:E1;
      apply check_parent_same in E1 as ->; [|discriminate].
    intros [= <-]. eexists. cbn.
    apply lookup_path_insert_file; [by rewrite E|done].
Qed.

Lemma chmod_ok p mode data m w w' :
  chmod p mode w = (Ok tt, w') →
  holds_file w p data m → holds_file w' p data mode.
Proof.
  unfold chmod, holds_file. unfold_M. rewrite stat_path_run.
  intros Hrun Hf. rewrite Hf in Hrun. injection Hrun as <-. cbn.
  apply lookup_path_insert_file; [by rewrite Hf|done].
Qed.

Lemma write_keyfile_data_hardens self data overwrite w w' :
  _write_keyfile_data_to_file self data overwrite w = (Ok tt, w') →
  hardened w' (path self) data.
Proof.
  unfold _write_keyfile_data_to_file. intros Hrun.
  apply bind_ok_inv in Hrun as (on_device & w1 & _ & Hrun).
  apply bind_ok_inv in Hrun as ([] & w2 & _ & Hrun).
  apply bind_ok_inv in Hrun as ([] & w3 & Hw & Hc).
  apply write_file_ok in Hw as [m Hw].
  exists (Z.lor S_IRUSR S_IWUSR). split; [by eapply chmod_ok|].
  split; [done|apply owner_rw_only_0o600].
Qed.

(** C8. Whenever [set_keypair], [encrypt] or [decrypt] returns, the file at
    the keyfile's path holds the bytes just written and its permission bits
    are owner-read and owner-write and nothing else. *)
Theorem write_leaves_owner_only (L : Libs) (self : keyfile) (w w' : world) :
  (∀ keypair enc overwrite password,
     set_keypair L self keypair enc overwrite password w = (Ok tt, w') →
     ∃ data, hardened w' (path self) data)
  ∧ (∀ password, encrypt L self password w = (Ok tt, w') →
     ∃ data, hardened w' (path self) data)
  ∧ (∀ password, decrypt L self password w = (Ok tt, w') →
     ∃ data, hardened w' (path self) data).
Proof.
  split; [|split].
  - intros keypair enc overwrite password Hrun. unfold set_keypair in Hrun.
    apply bind_ok_inv in Hrun as ([] & w1 & _ & Hrun).
    apply bind_ok_inv in Hrun as (data & w2 & _ & Hrun).
    exists data. by eapply write_keyfile_data_hardens.
  - intros password Hrun. unfold encrypt in Hrun.
    apply bind_ok_inv in Hrun as ([] & w1 & _ & Hrun); [|discriminate].
    apply bind_ok_inv in Hrun as ([] & w2 & _ & Hrun); [|discriminate].
    apply bind_ok_inv in Hrun as ([] & w3 & _ & Hrun); [|discriminate].
    cbn [negb] in Hrun.
    apply bind_ok_inv in Hrun as (data1 & w4 & _ & Hrun).
    apply bind_ok_inv in Hrun as (data & w5 & _ & Hrun).
    exists data. by eapply write_keyfile_data_hardens.
  - intros password Hrun. unfold decrypt in Hrun.
    apply bind_ok_inv in Hrun as ([] & w1 & _ & Hrun); [|discriminate].
    apply bind_ok_inv in Hrun as ([] & w2 & _ & Hrun); [|discriminate].
    apply bind_ok_inv in Hrun as ([] & w3 & _ & Hrun); [|discriminate].
    cbn [negb] in Hrun.
    apply bind_ok_inv in Hrun as (data1 & w4 & _ & Hrun).
    apply bind_ok_inv in Hrun as (data2 & w5 & _ & Hrun).
    apply bind_ok_inv in Hrun as (as_keypair & w6 & _ & Hrun).
    eexists. by eapply write_keyfile_data_hardens.
Qed.

Lemma write_leaves_owner_only_witness :
  ∃ data, hardened (set_keypair double_libs coldkey alice true true (Some "hunter2")
                      (world_with_coldkey [])).2 "/w/coldkey" data.
Proof.
  refine (proj1 (write_leaves_owner_only double_libs coldkey (world_with_coldkey []) _)
            alice true true (Some "hunter2") _).
  vm_compute. reflexivity.
Defined.

(** *** The bounds of the modelled loops are never reached *)

Lemma ask_password_loop_fuel (L : Libs) (fuel : nat) (w : world) :
  (length (stdin w) < fuel)%nat →
  (ask_password_loop L fuel w).1 ≠ Raise OutOfFuel.
Proof.
  revert w. induction fuel as [|fuel IH]; intros w Hlen; [lia|].
  cbn [ask_password_loop]. unfold getpass at 1. unfold mbind at 1. unfold M_bind, bind.
  rewrite read_line_run.
  destruct (stdin w) as [|p rest] eqn:Hin; [discriminate|]. cbn [length] in Hlen.
  unfold mbind at 1. unfold M_bind, bind.
  destruct (decide (p = "")) as [->|Hp].
  - cbn. apply IH. cbn. lia.
  - rewrite (validate_password_run L p _ Hp).
    destruct (policy_test L the_policy p) as [|t ts].
    + cbn [stdin answered]. destruct rest as [|retyped rest']; [discriminate|].
      cbv zeta. case_bool_decide; [discriminate|].
      apply IH. cbn in *. lia.
    + apply IH. cbn. lia.
Qed.

Lemma ask_password_to_encrypt_total (L : Libs) (w : world) :
  (ask_password_to_encrypt L w).1 ≠ Raise OutOfFuel.
Proof. unfold ask_password_to_encrypt. apply ask_password_loop_fuel. lia. Qed.

Lemma string_of_list_ascii_length l :
  String.length (string_of_list_ascii l) = length l.
Proof. induction l; cbn; congruence. Qed.

Lemma list_ascii_of_string_length s :
  length (list_ascii_of_string s) = String.length s.
Proof. induction s; cbn; congruence. Qed.

Lemma take_drop_while_length {A} (f : A → bool) l :
  (length (take_while f l) + length (drop_while f l) = length l)%nat.
Proof. induction l as [|x l IH]; cbn; [done|]. destruct (f x); cbn; lia. Qed.

Lemma drop_while_length {A} (f : A → bool) l :
  (length (drop_while f l) ≤ length l)%nat.
Proof. pose proof (take_drop_while_length f l). lia. Qed.

(** Head and tail of a split together are no longer than the path. *)
Lemma split_path_length p :
  (String.length (split_path p).1 + String.length (split_path p).2 ≤ String.length p)%nat.
Proof.
  unfold split_path. cbn [fst snd].
  rewrite !string_of_list_ascii_length, !length_rev.
  rewrite <- (list_ascii_of_string_length p), <- (length_rev (list_ascii_of_string p)).
  set (r := rev (list_ascii_of_string p)).
  pose proof (take_drop_while_length (λ c, negb (is_slash c)) r).
  pose proof (drop_while_length is_slash (drop_while (λ c, negb (is_slash c)) r)).
  destruct (forallb _ _); lia.
Qed.

Lemma check_parent_no_fuel p w : (check_parent p w).1 ≠ Raise OutOfFuel.
Proof.
  unfold check_parent. destruct (split_path p) as [head tail].
  case_bool_decide; [discriminate|]. unfold_M. rewrite stat_path_run.
  by destruct (lookup_path _ _) as [[]|].
Qed.

Lemma mkdir_no_fuel name w : (mkdir name w).1 ≠ Raise OutOfFuel.
Proof.
  unfold mkdir. unfold_M. rewrite stat_path_run.
  destruct (lookup_path (fs w) name); [discriminate|].
  case_bool_decide; [discriminate|].
  pose proof (check_parent_no_fuel name w) as Hcp.
  destruct (check_parent name w) as [[[]|e] w1]; [discriminate|]. exact Hcp.
Qed.

Lemma makedirs_fuel_enough (fuel : nat) (name : string) (w : world) :
  (String.length name < fuel)%nat →
  (makedirs_fuel fuel name w).1 ≠ Raise OutOfFuel.
Proof.
  revert name w. induction fuel as [|fuel IH]; intros name w Hlen; [lia|].
  cbn [makedirs_fuel].
  pose proof (split_path_length name) as H1.
  destruct (split_path name) as [head tail]. cbn [fst snd] in H1.
  assert (∃ head' tail',
            (if bool_decide (tail = "") then split_path head else (head, tail)) = (head', tail')
            ∧ (tail' ≠ "" → String.length head' < String.length name)%nat)
    as (head' & tail' & -> & Hshort).
  { case_bool_decide.
    - pose proof (split_path_length head) as H2.
      destruct (split_path head) as [head' tail']. cbn [fst snd] in H2.
      exists head', tail'. split; [done|]. intros Ht. destruct tail'; [done|]. cbn in H2. lia.
    - exists head, tail. split; [done|]. intros Ht. destruct tail; [done|]. cbn in H1. lia. }
  unfold mbind at 1. unfold M_bind, bind.
  destruct (bool_decide (head' ≠ "") && bool_decide (tail' ≠ "")) eqn:Hc.
  - apply andb_prop in Hc as [_ Ht%bool_decide_eq_true].
    specialize (Hshort Ht).
    unfold_M. unfold path_exists. unfold_M. rewrite stat_path_run.
    destruct (lookup_path (fs w) head'); [apply mkdir_no_fuel|].
    pose proof (IH head' w ltac:(lia)) as Hin.
    destruct (makedirs_fuel fuel head' w) as [[[]|e] w1].
    + destruct (bool_decide _); [discriminate|apply mkdir_no_fuel].
    + destruct e; cbn in *; try done.
      destruct (bool_decide _); [discriminate|apply mkdir_no_fuel].
  - apply mkdir_no_fuel.
Qed.

Lemma makedirs_total (name : string) (w : world) :
  (makedirs name w).1 ≠ Raise OutOfFuel.
Proof. unfold makedirs. apply makedirs_fuel_enough. lia. Qed.

(* ========================================================================= *)
(** * Further properties of the keyfile object *)

Lemma path_isfile_run p w :
  path_isfile p w =
    (Ok (match lookup_path (fs w) p with Some (File _ _) => true | _ => false end), w).
Proof. reflexivity. Qed.

Lemma access_run p bit w :
  access p bit w =
    (Ok (match lookup_path (fs w) p with
         | Some (File _ mode) => bool_decide (Z.land mode bit ≠ 0%Z)
         | Some Dir => true
         | None => false
         end), w).
Proof. reflexivity. Qed.

Lemma is_readable_run self w :
  is_readable self w =
    (Ok (match lookup_path (fs w) (path self) with
         | Some (File _ mode) => bool_decide (Z.land mode S_IRUSR ≠ 0%Z)
         | _ => false
         end), w).
Proof.
  unfold is_readable. unfold_M. rewrite exists_on_device_run.
  destruct (lookup_path (fs w) (path self)) as [[d m|]|] eqn:E; cbn; try reflexivity.
  rewrite access_run, E. by case_bool_decide.
Qed.

Lemma is_writable_run self w :
  is_writable self w =
    (Ok (match lookup_path (fs w) (path self) with
         | Some (File _ mode) => bool_decide (Z.land mode S_IWUSR ≠ 0%Z)
         | Some Dir => true
         | None => false
         end), w).
Proof.
  unfold is_writable. unfold_M. rewrite access_run.
  destruct (lookup_path (fs w) (path self)) as [[d m|]|]; cbn; try reflexivity.
  by case_bool_decide.
Qed.

Lemma read_file_run p w :
  read_file p w =
    (match lookup_path (fs w) p with
     | Some (File data mode) =>
       if bool_decide (Z.land mode S_IRUSR ≠ 0%Z) then Ok data else Raise PermissionError
     | Some Dir => Raise IsADirectoryError
     | None => Raise FileNotFoundError
     end, w).
Proof.
  unfold read_file. unfold_M. rewrite stat_path_run.
  destruct (lookup_path (fs w) p) as [[d m|]|]; try reflexivity.
  by case_bool_decide.
Qed.

(** The three outcomes of [_read_keyfile_data_from_file]. *)
Lemma read_keyfile_data_run self w :
  _read_keyfile_data_from_file self w =
    (match lookup_path (fs w) (path self) with
     | Some (File data mode) =>
       if bool_decide (Z.land mode S_IRUSR ≠ 0%Z) then Ok data
       else Raise (KeyFileError (NotReadable (path self)))
     | _ => Raise (KeyFileError (DoesNotExist (path self)))
     end, w).
Proof.
  unfold _read_keyfile_data_from_file. unfold_M.
  rewrite exists_on_device_run.
  destruct (lookup_path (fs w) (path self)) as [[d m|]|] eqn:E; cbn; try reflexivity.
  rewrite is_readable_run, E.
  case_bool_decide; cbn; [|reflexivity].
  rewrite read_file_run, E. by rewrite bool_decide_eq_true_2.
Qed.

(** X1. Reading never changes the world.  It returns the bytes of the file
    exactly when the path names a regular file whose owner-read bit is set;
    a path that names no regular file (nothing, or a directory) gives "does
    not exist", a file without the read bit gives "is not readable". *)
Theorem read_keyfile_data_cases (self : keyfile) (w : world) :
  (_read_keyfile_data_from_file self w).2 = w
  ∧ (∀ data, (_read_keyfile_data_from_file self w).1 = Ok data
             ↔ readable_file w (path self) data)
  ∧ (no_file w (path self) ↔
       (_read_keyfile_data_from_file self w).1
       = Raise (KeyFileError (DoesNotExist (path self))))
  ∧ (∀ data mode, holds_file w (path self) data mode → Z.land mode S_IRUSR = 0%Z →
       (_read_keyfile_data_from_file self w).1
       = Raise (KeyFileError (NotReadable (path self)))).
Proof.
  rewrite read_keyfile_data_run. unfold readable_file, no_file, holds_file.
  destruct (lookup_path (fs w) (path self)) as [[d m|]|] eqn:E; cbn.
  - split; [done|]. case_bool_decide as Hm; cbn.
    + split; [|split].
      * intros data; split; [intros [= <-]; eauto|].
        by intros (mode & [= <- <-] & _).
      * split; [intros H; by destruct (H d m)|discriminate].
      * intros data mode [= <- <-] H0. by destruct Hm.
    + split; [|split].
      * intros data; split; [discriminate|].
        intros (mode & [= <- <-] & Hr). by destruct Hm.
      * split; [intros H; by destruct (H d m)|discriminate].
      * done.
  - split; [done|]. split; [|split]; try done.
    intros data; split; [discriminate|]. by intros (mode & [=] & _).
  - split; [done|]. split; [|split]; try done.
    intros data; split; [discriminate|]. by intros (mode & [=] & _).
Qed.

Lemma read_keyfile_data_cases_witness :
  (_read_keyfile_data_from_file coldkey (world_with_coldkey [])).1 = Ok (b "0x01").
Proof.
  apply (proj1 (proj2 (read_keyfile_data_cases coldkey (world_with_coldkey [])))).
  exists 420%Z. split; [reflexivity|discriminate].
Defined.

Lemma is_encrypted_run self w :
  is_encrypted self w =
    (Ok (match lookup_path (fs w) (path self) with
         | Some (File data mode) =>
           bool_decide (Z.land mode S_IRUSR ≠ 0%Z) && keyfile_data_is_encrypted data
         | _ => false
         end), w).
Proof.
  unfold is_encrypted. unfold_M. rewrite exists_on_device_run.
  destruct (lookup_path (fs w) (path self)) as [[d m|]|] eqn:E; cbn; try reflexivity.
  rewrite is_readable_run, E.
  case_bool_decide as Hm; cbn; [|reflexivity].
  rewrite read_keyfile_data_run, E. by rewrite bool_decide_eq_true_2.
Qed.

Lemma is_encrypted_classify data :
  keyfile_data_is_encrypted data = bool_decide (classify data ≠ Plaintext).
Proof.
  unfold keyfile_data_is_encrypted, classify.
  destruct (keyfile_data_is_encrypted_ansible data); [reflexivity|].
  destruct (keyfile_data_is_encrypted_legacy data); reflexivity.
Qed.

(** X2. [is_encrypted] never raises and never changes the world; it answers
    [True] exactly when the path names a readable regular file whose bytes
    start with one of the two markers, so a missing file, a directory and a
    file that cannot be read all count as not encrypted. *)
Theorem is_encrypted_never_raises (self : keyfile) (w : world) :
  ∃ answer, is_encrypted self w = (Ok answer, w)
    ∧ (answer = true ↔
         ∃ data, readable_file w (path self) data ∧ classify data ≠ Plaintext).
Proof.
  rewrite is_encrypted_run. eexists. split; [reflexivity|].
  unfold readable_file, holds_file.
  destruct (lookup_path (fs w) (path self)) as [[d m|]|] eqn:E.
  - rewrite andb_true_iff, bool_decide_eq_true.
    rewrite is_encrypted_classify.
    rewrite bool_decide_eq_true. split.
    + intros [Hm Hc]. exists d. eauto.
    + intros (data & (mode & [= <- <-] & Hm) & Hc). done.
  - split; [discriminate|]. by intros (data & (mode & [=] & _) & _).
  - split; [discriminate|]. by intros (data & (mode & [=] & _) & _).
Qed.

(** X3. [__str__] never raises and never changes the world.  It says "empty"
    when the path names no regular file, "encrypted" when the file is
    readable and starts with a marker, and "decrypted" in every other case,
    a file that cannot be read included, whatever it holds. *)
Theorem str_cases (self : keyfile) (w : world) :
  ∃ text, __str__ self w = (Ok text, w)
    ∧ (no_file w (path self) → text = "keyfile (empty, " +:+ path self +:+ ")>")
    ∧ (∀ data, readable_file w (path self) data →
         text = if keyfile_data_is_encrypted data
                then "keyfile (encrypted, " +:+ path self +:+ ")>"
                else "keyfile (decrypted, " +:+ path self +:+ ")>")
    ∧ (∀ data mode, holds_file w (path self) data mode → Z.land mode S_IRUSR = 0%Z →
         text = "keyfile (decrypted, " +:+ path self +:+ ")>").
Proof.
  unfold __str__. unfold_M. rewrite exists_on_device_run.
  unfold no_file, readable_file, holds_file.
  destruct (lookup_path (fs w) (path self)) as [[d m|]|] eqn:E; cbn.
  - rewrite is_encrypted_run, E.
    destruct (decide (Z.land m S_IRUSR = 0%Z)) as [Hm|Hm].
    + rewrite bool_decide_eq_false_2 by tauto. cbn. eexists. split; [reflexivity|].
      split; [intros H; by destruct (H d m)|]. split; [|done].
      by intros data (mode & [= <- <-] & Hr).
    + rewrite bool_decide_eq_true_2 by done. cbn.
      destruct (keyfile_data_is_encrypted d) eqn:Hd; eexists; (split; [reflexivity|]);
        (split; [intros H; by destruct (H d m)|]); (split; [|by intros ?? [= <- <-]]);
        intros data (mode & [= <- <-] & Hr); by rewrite Hd.
  - eexists. split; [reflexivity|]. split; [done|].
    split; [by intros data (mode & [=] & _)|done].
  - eexists. split; [reflexivity|]. split; [done|].
    split; [by intros data (mode & [=] & _)|done].
Qed.

Lemma str_cases_witness :
  ∃ text, __str__ coldkey (world_with_coldkey []) = (Ok text, world_with_coldkey [])
          ∧ text = "keyfile (decrypted, /w/coldkey)>".
Proof.
  destruct (str_cases coldkey (world_with_coldkey [])) as (text & Hrun & _ & Hr & _).
  exists text. split; [exact Hrun|].
  apply (Hr (b "0x01")). exists 420%Z. split; [reflexivity|discriminate].
Defined.

Lemma write_file_run_existing p data data0 mode w :
  lookup_path (fs w) p = Some (File data0 mode) →
  write_file p data w =
    if bool_decide (Z.land mode S_IWUSR ≠ 0%Z)
    then (Ok tt, mkWorld (<[p := File data mode]> (fs w)) (umask w) (stdin w)
                         (environ w) (urandom w) (trace w))
    else (Raise PermissionError, w).
Proof.
  intros E. unfold write_file. unfold_M. rewrite stat_path_run, E.
  by case_bool_decide.
Qed.

Lemma lookup_path_insert_eq f p n :
  lookup_path f p ≠ Some Dir → lookup_path (<[p := n]> f) p = Some n.
Proof.
  unfold lookup_path. destruct (_ && _); [done|]. intros _. by rewrite lookup_insert_eq.
Qed.

(** Writing over a file that is there, with [overwrite=True]. *)
Lemma write_overwrite_run self data data0 mode w :
  holds_file w (path self) data0 mode →
  _write_keyfile_data_to_file self data true w =
    if bool_decide (Z.land mode S_IWUSR ≠ 0%Z) then (Ok tt, set_file w (path self) data)
    else (Raise PermissionError, w).
Proof.
  intros Hf. unfold holds_file in Hf.
  unfold _write_keyfile_data_to_file. unfold_M. rewrite exists_on_device_run, Hf.
  cbn [andb negb]. rewrite (write_file_run_existing _ _ _ _ _ Hf).
  case_bool_decide; [|reflexivity].
  unfold chmod. unfold_M. rewrite stat_path_run. cbn [fs].
  rewrite lookup_path_insert_eq by (by rewrite Hf). cbn.
  rewrite write_node_run. cbn [fs umask stdin environ urandom trace].
  unfold set_file. by rewrite insert_insert_eq.
Qed.

(** The three checks that open [encrypt] and [decrypt], on a usable file. *)
Lemma usable_file_checks self w data :
  usable_file w (path self) data →
  exists_on_device self w = (Ok true, w)
  ∧ is_readable self w = (Ok true, w)
  ∧ is_writable self w = (Ok true, w)
  ∧ _read_keyfile_data_from_file self w = (Ok data, w).
Proof.
  intros (mode & Hf & Hr & Hw). unfold holds_file in Hf.
  rewrite exists_on_device_run, is_readable_run, is_writable_run,
    read_keyfile_data_run, Hf.
  by rewrite !bool_decide_eq_true_2.
Qed.

(** X4. [encrypt] and [decrypt] check the file before anything else: with no
    regular file at the path they raise "does not exist", with a file that
    lacks the owner-read bit "is not readable", with a readable file that
    lacks the owner-write bit "is not writable"; in each case the world is
    untouched: nothing was read, asked or written. *)
Theorem encrypt_decrypt_preconditions (L : Libs) (self : keyfile)
    (password : option string) (w : world) :
  (no_file w (path self) →
     encrypt L self password w = (Raise (KeyFileError (DoesNotExist (path self))), w)
     ∧ decrypt L self password w = (Raise (KeyFileError (DoesNotExist (path self))), w))
  ∧ (∀ data mode, holds_file w (path self) data mode → Z.land mode S_IRUSR = 0%Z →
     encrypt L self password w = (Raise (KeyFileError (NotReadable (path self))), w)
     ∧ decrypt L self password w = (Raise (KeyFileError (NotReadable (path self))), w))
  ∧ (∀ data mode, holds_file w (path self) data mode → Z.land mode S_IRUSR ≠ 0%Z →
     Z.land mode S_IWUSR = 0%Z →
     encrypt L self password w = (Raise (KeyFileError (NotWritable (path self))), w)
     ∧ decrypt L self password w = (Raise (KeyFileError (NotWritable (path self))), w)).
Proof.
  unfold encrypt, decrypt, no_file, holds_file. unfold_M.
  rewrite !exists_on_device_run.
  destruct (lookup_path (fs w) (path self)) as [[d m|]|] eqn:E; cbn.
  - rewrite !is_readable_run, !E.
    split; [intros H; by destruct (H d m)|].
    destruct (decide (Z.land m S_IRUSR = 0%Z)) as [Hm|Hm].
    + rewrite !bool_decide_eq_false_2 by tauto. cbn.
      split; [done|]. by intros data mode [= <- <-] Hr.
    + rewrite !bool_decide_eq_true_2 by done. cbn.
      split; [by intros data mode [= <- <-] Hr|].
      intros data mode [= <- <-] _ Hw.
      rewrite !is_writable_run, !E. rewrite !bool_decide_eq_false_2 by tauto. done.
  - split; [done|]. split; by intros data mode [=].
  - split; [done|]. split; by intros data mode [=].
Qed.

Lemma encrypt_decrypt_preconditions_witness :
  encrypt double_libs coldkey None
    (mkWorld {[ "/w" := Dir; "/w/coldkey" := File (b "0x01") 256 ]} 18 [] [] 0 [])
  = (Raise (KeyFileError (NotWritable "/w/coldkey")),
     mkWorld {[ "/w" := Dir; "/w/coldkey" := File (b "0x01") 256 ]} 18 [] [] 0 []).
Proof.
  refine (proj1 (proj2 (proj2 (encrypt_decrypt_preconditions double_libs coldkey None _))
                  (b "0x01") 256%Z _ _ _)); [reflexivity|discriminate|reflexivity].
Defined.

(** X5. [encrypt] on a file that is already encrypted (either marker) asks
    for nothing and calls no library: it writes the same bytes back and
    leaves the mode at owner read and write; the [password] is not used. *)
Theorem encrypt_already_encrypted (L : Libs) (self : keyfile)
    (password : option string) (w : world) (data : bytes) :
  usable_file w (path self) data →
  classify data ≠ Plaintext →
  encrypt L self password w = (Ok tt, set_file w (path self) data).
Proof.
  intros Hu Hc.
  destruct (usable_file_checks self w data Hu) as (He & Hr & Hw & Hread).
  destruct Hu as (mode & Hf & _ & Hmw).
  unfold encrypt. unfold_M. rewrite He. cbn. rewrite Hr. cbn. rewrite Hw. cbn.
  rewrite Hread. rewrite is_encrypted_classify, bool_decide_eq_true_2 by done. cbn.
  rewrite (write_overwrite_run self data data mode w Hf).
  by rewrite bool_decide_eq_true_2.
Qed.

Lemma encrypt_already_encrypted_witness :
  encrypt double_libs coldkey None
    (mkWorld {[ "/w" := Dir; "/w/coldkey" := File (b "gAAAAAtoken") 420 ]} 18 [] [] 0 [])
  = (Ok tt,
     mkWorld {[ "/w" := Dir; "/w/coldkey" := File (b "gAAAAAtoken") 384 ]} 18 [] [] 0 []).
Proof.
  etransitivity.
  - apply (encrypt_already_encrypted double_libs coldkey None _ (b "gAAAAAtoken")).
    + exists 420%Z. split; [reflexivity|]. split; discriminate.
    + discriminate.
  - vm_compute. reflexivity.
Defined.

(** X6. On a readable file without a marker [get_keypair] goes straight to
    the codec: the result is the decoding of the file's bytes, the password
    argument and the environment are not looked at, nothing is asked, no
    library is called to decrypt, and the world is as before.  Without a
    regular file at the path it raises "does not exist". *)
Theorem get_keypair_plaintext (L : Libs) (self : keyfile)
    (password : option string) (w : world) :
  (∀ data, readable_file w (path self) data → classify data = Plaintext →
     get_keypair L self password w
     = (deserialize_keypair_from_keyfile_data L data, w))
  ∧ (no_file w (path self) →
     get_keypair L self password w
     = (Raise (KeyFileError (DoesNotExist (path self))), w)).
Proof.
  unfold get_keypair. unfold_M. rewrite read_keyfile_data_run.
  unfold readable_file, no_file, holds_file.
  destruct (lookup_path (fs w) (path self)) as [[d m|]|] eqn:E.
  - split.
    + intros data (mode & [= <- <-] & Hr) Hc.
      rewrite bool_decide_eq_true_2 by done.
      rewrite is_encrypted_classify, bool_decide_eq_false_2 by (rewrite Hc; tauto).
      by destruct (deserialize_keypair_from_keyfile_data L d).
    + intros H. by destruct (H d m).
  - split; [by intros data (mode & [=] & _)|done].
  - split; [by intros data (mode & [=] & _)|done].
Qed.

Lemma get_keypair_plaintext_witness :
  get_keypair double_libs coldkey (Some "unused") (world_with_coldkey [])
  = (deserialize_keypair_from_keyfile_data double_libs (b "0x01"), world_with_coldkey []).
Proof.
  apply (proj1 (get_keypair_plaintext double_libs coldkey (Some "unused")
                  (world_with_coldkey []))).
  - exists 420%Z. split; [reflexivity|discriminate].
  - reflexivity.
Defined.

(** X7. [decrypt] on a usable file without a marker rewrites it in the
    record form: the bytes are decoded and encoded again, written back and
    the mode set to owner read and write; no password is asked.  If the bytes
    do not decode, the exception of the codec comes out and the world is
    untouched. *)
Theorem decrypt_plaintext_normalises (L : Libs) (self : keyfile)
    (password : option string) (w : world) (data : bytes) :
  usable_file w (path self) data →
  classify data = Plaintext →
  decrypt L self password w =
    match deserialize_keypair_from_keyfile_data L data with
    | Ok as_keypair =>
      (Ok tt, set_file w (path self) (serialized_keypair_to_keyfile_data L as_keypair))
    | Raise e => (Raise e, w)
    end.
Proof.
  intros Hu Hc.
  destruct (usable_file_checks self w data Hu) as (He & Hr & Hw & Hread).
  destruct Hu as (mode & Hf & _ & Hmw).
  unfold decrypt. unfold_M. rewrite He. cbn. rewrite Hr. cbn. rewrite Hw. cbn.
  rewrite Hread.
  rewrite is_encrypted_classify, bool_decide_eq_false_2 by (rewrite Hc; tauto).
  destruct (deserialize_keypair_from_keyfile_data L data) as [k|e]; [|reflexivity].
  rewrite (write_overwrite_run self _ data mode w Hf).
  by rewrite bool_decide_eq_true_2.
Qed.

Lemma decrypt_plaintext_normalises_witness :
  decrypt double_libs coldkey None (world_with_coldkey [])
  = (Ok tt, set_file (world_with_coldkey []) "/w/coldkey" (b "{}")).
Proof.
  refine (decrypt_plaintext_normalises double_libs coldkey None (world_with_coldkey [])
            (b "0x01") _ _); [|reflexivity].
  exists 420%Z. split; [reflexivity|]. split; discriminate.
Defined.

(** X8. Where [decrypt_keyfile_data] takes the password from: the argument
    if there is one; else, when a coldkey name is given, the first matching
    environment variable, and then nothing is asked; else the line typed at
    the prompt.  When the input is exhausted the call raises [EOFError]
    before it has looked at the data, also for data without a marker. *)
Theorem decrypt_password_source (L : Libs) (d : bytes) (coldkey_name : option string)
    (w : world) :
  let from_env := coldkey_name ≫= scan_environment L (environ w) in
  (∀ pw cn, from_env = Some pw →
     decrypt_keyfile_data L d None coldkey_name w = decrypt_keyfile_data L d (Some pw) cn w)
  ∧ (∀ line rest cn, from_env = None → stdin w = line :: rest →
     decrypt_keyfile_data L d None coldkey_name w
     = decrypt_keyfile_data L d (Some line) cn (answered w unlock_prompt line rest))
  ∧ (from_env = None → stdin w = [] →
     decrypt_keyfile_data L d None coldkey_name w = (Raise EOFError, w)).
Proof.
  intros from_env.
  assert (Hsplit : ∀ pw cn w0,
            decrypt_keyfile_data L d pw cn w0 =
            (match cn, pw with
             | Some c, None => get_coldkey_password_from_environment L c
             | _, _ => mret pw
             end ≫= decrypt_from_try L d) w0) by reflexivity.
  assert (Hnone : ∀ w0, decrypt_from_try L d None w0 =
            match stdin w0 with
            | [] => (Raise EOFError, w0)
            | line :: rest =>
              decrypt_from_try L d (Some line) (answered w0 unlock_prompt line rest)
            end).
  { intros w0. unfold decrypt_from_try, getpass. unfold_M. rewrite read_line_run.
    by destruct (stdin w0). }
  assert (Hres : decrypt_keyfile_data L d None coldkey_name w
                 = decrypt_from_try L d from_env w).
  { rewrite Hsplit. subst from_env. by destruct coldkey_name. }
  assert (Hsome : ∀ pw cn w0, decrypt_keyfile_data L d (Some pw) cn w0
                              = decrypt_from_try L d (Some pw) w0).
  { intros pw cn w0. rewrite Hsplit. by destruct cn. }
  rewrite Hres. split; [|split].
  - intros pw cn ->. by rewrite Hsome.
  - intros line rest cn -> Hin. by rewrite Hsome, Hnone, Hin.
  - intros -> Hin. by rewrite Hnone, Hin.
Qed.

Lemma decrypt_password_source_witness :
  decrypt_keyfile_data double_libs (b "gAAAAAtoken") None (Some "default")
    (mkWorld ∅ 18 [] [("BT_COLD_PW_DEFAULT", "hunter2")] 0 [])
  = decrypt_keyfile_data double_libs (b "gAAAAAtoken") (Some "hunter2") None
      (mkWorld ∅ 18 [] [("BT_COLD_PW_DEFAULT", "hunter2")] 0 []).
Proof.
  apply (proj1 (decrypt_password_source double_libs (b "gAAAAAtoken") (Some "default")
                  (mkWorld ∅ 18 [] [("BT_COLD_PW_DEFAULT", "hunter2")] 0 []))).
  reflexivity.
Defined.

(** *** Passwords from the environment *)

Lemma string_app_cons c s1 s2 : String c s1 +:+ s2 = String c (s1 +:+ s2).
Proof. reflexivity. Qed.

Lemma string_app_nil_l s : "" +:+ s = s.
Proof. reflexivity. Qed.

Lemma string_app_nil_r s : s +:+ "" = s.
Proof.
  induction s as [|c s IH]; [done|]. by rewrite string_app_cons, IH.
Qed.

Lemma string_length_app s1 s2 :
  String.length (s1 +:+ s2) = (String.length s1 + String.length s2)%nat.
Proof.
  induction s1 as [|c s1 IH]; [done|]. rewrite string_app_cons. simpl. by rewrite IH.
Qed.

Lemma string_app_assoc s1 s2 s3 : (s1 +:+ s2) +:+ s3 = s1 +:+ (s2 +:+ s3).
Proof.
  induction s1 as [|c s1 IH]; [done|]. by rewrite !string_app_cons, IH.
Qed.

Lemma substring_whole s : substring 0 (String.length s) s = s.
Proof. induction s as [|c s IH]; simpl; [done|]. by rewrite IH. Qed.

Lemma substring_prefix_app p s : substring 0 (String.length p) (p +:+ s) = p.
Proof.
  induction p as [|c p IH]; [by destruct s|].
  rewrite string_app_cons. simpl. by rewrite IH.
Qed.

Lemma substring_suffix_app p s :
  substring (String.length p) (String.length s) (p +:+ s) = s.
Proof.
  induction p as [|c p IH]; [apply substring_whole|].
  rewrite string_app_cons. simpl. exact IH.
Qed.

(** A string is its first [n] characters followed by the next [m], when
    these are all it has. *)
Lemma substring_split n m s :
  (n + m = String.length s)%nat → s = substring 0 n s +:+ substring n m s.
Proof.
  revert s. induction n as [|n IH]; intros s Hlen.
  - simpl in Hlen. subst m. replace (substring 0 0 s) with "" by (by destruct s).
    by rewrite string_app_nil_l, substring_whole.
  - destruct s as [|c s]; [done|]. simpl in *. rewrite string_app_cons.
    f_equal. apply IH. lia.
Qed.

Lemma startswith_spec s p : startswith s p = true ↔ ∃ post, s = p +:+ post.
Proof.
  unfold startswith. rewrite bool_decide_eq_true. split.
  - intros H. revert s H. induction p as [|c p IH]; intros s H; [by exists s|].
    destruct s as [|c' s]; [done|]. simpl in H. injection H as -> H.
    destruct (IH s H) as [post ->]. by exists post.
  - intros [post ->]. apply substring_prefix_app.
Qed.

Lemma endswith_spec s p : endswith s p = true ↔ ∃ pre, s = pre +:+ p.
Proof.
  unfold endswith. rewrite andb_true_iff, !bool_decide_eq_true. split.
  - intros [Hlen H].
    exists (substring 0 (String.length s - String.length p) s).
    etransitivity; [apply (substring_split (String.length s - String.length p)
                             (String.length p)); lia|].
    by rewrite H.
  - intros [pre ->]. rewrite string_length_app. split; [lia|].
    replace (String.length pre + String.length p - String.length p)%nat
      with (String.length pre) by lia.
    apply substring_suffix_app.
Qed.

Lemma upper_ascii_idemp c : upper_ascii (upper_ascii c) = upper_ascii c.
Proof. destruct c as [[] [] [] [] [] [] [] []]; reflexivity. Qed.

Lemma upper_ascii_text_idemp s : upper_ascii_text (upper_ascii_text s) = upper_ascii_text s.
Proof. induction s as [|c s IH]; simpl; [done|]. by rewrite upper_ascii_idemp, IH. Qed.

Lemma names_coldkey_spec L var c :
  names_coldkey L var c = true ↔
    (∃ post, upper L var = "BT_COLD_PW_" +:+ post)
    ∧ (∃ pre, upper L var = pre +:+ upper L c).
Proof.
  unfold names_coldkey. by rewrite andb_true_iff, startswith_spec, endswith_spec.
Qed.

Lemma scan_environment_step L var v env c :
  scan_environment L ((var, v) :: env) c =
    if names_coldkey L var c then Some v else scan_environment L env c.
Proof. reflexivity. Qed.

(** X9. The password found in the environment is the value of the first
    variable, in iteration order, that passes the test of lines 183-186;
    [None] comes back exactly when no variable passes it.  Letter case does
    not matter: two coldkey names with one upper-cased form find the same
    password, and so does the environment with every variable's name
    upper-cased, upper-casing being idempotent. *)
Theorem environment_password_first_match (L : Libs) (env : list (string * string))
    (coldkey_name : string) :
  (scan_environment L env coldkey_name = None ↔
     ∀ var v, (var, v) ∈ env → names_coldkey L var coldkey_name = false)
  ∧ (∀ v, scan_environment L env coldkey_name = Some v ↔
       ∃ before var after,
         env = before ++ (var, v) :: after
         ∧ names_coldkey L var coldkey_name = true
         ∧ ∀ var' v', (var', v') ∈ before → names_coldkey L var' coldkey_name = false)
  ∧ (∀ other, upper L other = upper L coldkey_name →
       scan_environment L env other = scan_environment L env coldkey_name)
  ∧ (upper_idempotent L →
       scan_environment L ((λ kv, (upper L kv.1, kv.2)) <$> env) coldkey_name
       = scan_environment L env coldkey_name).
Proof.
  split; [|split; [|split]].
  - induction env as [|[var v] env IH].
    + split; [|done]. intros _ var v H. by apply elem_of_nil in H.
    + rewrite scan_environment_step.
      destruct (names_coldkey L var coldkey_name) eqn:Hn.
      * split; [done|]. intros H. specialize (H var v (list_elem_of_here _ _)). congruence.
      * rewrite IH. split.
        -- intros H var' v' [[= -> ->]|Hin]%elem_of_cons; [done|eauto].
        -- intros H var' v' Hin. apply (H var' v'). by right.
  - intros v. induction env as [|[var v0] env IH].
    + split; [done|]. intros (before & var & after & H & _). by destruct before.
    + rewrite scan_environment_step.
      destruct (names_coldkey L var coldkey_name) eqn:Hn.
      * split.
        -- intros [= ->]. exists [], var, env. split; [done|]. split; [done|].
           intros var' v' H. by apply elem_of_nil in H.
        -- intros ([|[var1 v1] before] & var' & after & Heq & Hm & Hb).
           ++ injection Heq as Hv1 Hv2 _. by subst.
           ++ injection Heq as Hv1 Hv2 _. subst var1 v1.
              specialize (Hb var v0 (list_elem_of_here _ _)). congruence.
      * rewrite IH. split.
        -- intros (before & var' & after & -> & Hm & Hb).
           exists ((var, v0) :: before), var', after. split; [done|]. split; [done|].
           intros var1 v1 [[= -> ->]|Hin]%elem_of_cons; [done|eauto].
        -- intros ([|[var1 v1] before] & var' & after & Heq & Hm & Hb).
           ++ injection Heq as Hv1 Hv2 _. subst var' v. congruence.
           ++ injection Heq as Hv1 Hv2 Henv. subst var1 v1 env.
              exists before, var', after.
              split; [done|]. split; [done|]. intros var2 v2 Hin.
              apply (Hb var2 v2). by right.
  - intros other Hu. induction env as [|[var v] env IH]; [done|].
    rewrite !scan_environment_step, IH. unfold names_coldkey. by rewrite Hu.
  - intros Hidem. induction env as [|[var v] env IH]; [done|].
    rewrite fmap_cons. cbn [fst snd]. rewrite !scan_environment_step, IH.
    unfold names_coldkey. by rewrite Hidem.
Qed.

Lemma environment_password_first_match_witness :
  upper_idempotent double_libs
  ∧ scan_environment double_libs
      [("HOME", "/root"); ("BT_COLD_PW_DEFAULT", "hunter2"); ("BT_COLD_PW_default", "other")]
      "Default"
    = scan_environment double_libs
        [("HOME", "/root"); ("bt_cold_pw_Default", "hunter2"); ("BT_COLD_PW_default", "other")]
        "Default".
Proof.
  split; [exact upper_ascii_text_idemp|].
  exact (proj2 (proj2 (proj2 (environment_password_first_match double_libs
    [("HOME", "/root"); ("bt_cold_pw_Default", "hunter2"); ("BT_COLD_PW_default", "other")]
    "Default"))) upper_ascii_text_idemp).
Defined.

(** X10. The test on a variable's name is a prefix test and a suffix test on
    its upper-cased form, not an equality: a variable that serves one coldkey
    serves every coldkey whose upper-cased name is a suffix of that one's,
    and the empty name, which upper-cases to itself, is served by every
    [BT_COLD_PW_] variable.  On names in ASCII, where upper-casing changes
    the letters [a] to [z] only, the variable [bt_cold_pw_mycold] thus
    serves the coldkey [cold] as well as [mycold]. *)
Theorem environment_password_suffix (L : Libs) (var name : string) :
  (names_coldkey L var name = true ↔
     (∃ post, upper L var = "BT_COLD_PW_" +:+ post)
     ∧ (∃ pre, upper L var = pre +:+ upper L name))
  ∧ (∀ shorter pre, names_coldkey L var name = true →
       upper L name = pre +:+ upper L shorter → names_coldkey L var shorter = true)
  ∧ (upper L "" = "" →
     (∃ post, upper L var = "BT_COLD_PW_" +:+ post) → names_coldkey L var "" = true)
  ∧ (upper_on_ascii L →
     (is_ascii_text var = true → is_ascii_text name = true →
      names_coldkey L var name
      = startswith (upper_ascii_text var) "BT_COLD_PW_"
        && endswith (upper_ascii_text var) (upper_ascii_text name))
     ∧ names_coldkey L "bt_cold_pw_mycold" "mycold" = true
     ∧ names_coldkey L "bt_cold_pw_mycold" "cold" = true
     ∧ names_coldkey L "bt_cold_pw_mycold" "" = true).
Proof.
  split; [apply names_coldkey_spec|]. split; [|split].
  - intros shorter pre [Hp [pre' Hs]]%names_coldkey_spec Hn.
    apply names_coldkey_spec. split; [done|].
    exists (pre' +:+ pre). by rewrite Hs, Hn, string_app_assoc.
  - intros He Hp. apply names_coldkey_spec. split; [done|].
    exists (upper L var). rewrite He. by rewrite string_app_nil_r.
  - intros Ha.
    assert (Hgen : ∀ v n, is_ascii_text v = true → is_ascii_text n = true →
              names_coldkey L v n
              = startswith (upper_ascii_text v) "BT_COLD_PW_"
                && endswith (upper_ascii_text v) (upper_ascii_text n)).
    { intros v n Hv Hn. unfold names_coldkey. by rewrite (Ha v Hv), (Ha n Hn). }
    split; [apply Hgen|].
    split; [|split]; by rewrite Hgen.
Qed.

Lemma environment_password_suffix_witness :
  upper_on_ascii double_libs
  ∧ names_coldkey double_libs "bt_cold_pw_mycold" "cold" = true.
Proof.
  assert (Ha : upper_on_ascii double_libs) by (intros s _; reflexivity).
  split; [exact Ha|].
  exact (proj1 (proj2 (proj2 (proj2 (proj2 (proj2
    (environment_password_suffix double_libs "bt_cold_pw_mycold" "mycold"))) Ha)))).
Defined.

(** *** What a failed or a non-interactive call leaves alone *)

#[global] Instance keeps_refl {T} (f : world → T) : Reflexive (keeps f).
Proof. by intros w. Qed.

#[global] Instance keeps_trans {T} (f : world → T) : Transitive (keeps f).
Proof. intros w1 w2 w3 H1 H2. unfold keeps in *. congruence. Qed.

(** A computation that hands the world back as it got it. *)
Lemma respects_pure {A} (R : world → world → Prop) `{!Reflexive R} (m : M A) :
  (∀ w, (m w).2 = w) → respects R m.
Proof. intros Hm w r w' H. specialize (Hm w). rewrite H in Hm. cbn in Hm. by subst. Qed.

Lemma exists_on_device_pure self w : (exists_on_device self w).2 = w.
Proof. by rewrite exists_on_device_run. Qed.

Lemma is_readable_pure self w : (is_readable self w).2 = w.
Proof. by rewrite is_readable_run. Qed.

Lemma is_writable_pure self w : (is_writable self w).2 = w.
Proof. by rewrite is_writable_run. Qed.

Lemma read_keyfile_data_pure self w : (_read_keyfile_data_from_file self w).2 = w.
Proof. by rewrite read_keyfile_data_run. Qed.

Lemma keeps_fs_log e : respects (keeps fs) (log e).
Proof. by intros w r w' [= _ <-]. Qed.

Lemma keeps_stdin_log e : respects (keeps stdin) (log e).
Proof. by intros w r w' [= _ <-]. Qed.

Lemma keeps_fs_read_line prompt : respects (keeps fs) (read_line prompt).
Proof.
  intros w r w'. rewrite read_line_run. by destruct (stdin w); intros [= _ <-].
Qed.

Lemma keeps_fs_draw : respects (keeps fs) draw.
Proof. by intros w r w' [= _ <-]. Qed.

Lemma keeps_stdin_draw : respects (keeps stdin) draw.
Proof. by intros w r w' [= _ <-]. Qed.

Lemma keeps_stdin_set_fs f : respects (keeps stdin) (set_fs f).
Proof. by intros w r w' [= _ <-]. Qed.

Ltac keeps_step :=
  lazymatch goal with
  | |- respects _ (mret _) => apply respects_ret; apply _
  | |- respects _ (raise _) => apply respects_raise; apply _
  | |- respects _ (lift _) => apply respects_lift; apply _
  | |- respects _ get_world => apply respects_get_world; apply _
  | |- respects (keeps fs) (log _) => apply keeps_fs_log
  | |- respects (keeps stdin) (log _) => apply keeps_stdin_log
  | |- respects (keeps fs) draw => apply keeps_fs_draw
  | |- respects (keeps stdin) draw => apply keeps_stdin_draw
  | |- respects (keeps fs) (read_line _) => apply keeps_fs_read_line
  | |- respects (keeps stdin) (set_fs _) => apply keeps_stdin_set_fs
  | |- respects _ (exists_on_device _) =>
    apply respects_pure; [apply _|apply exists_on_device_pure]
  | |- respects _ (is_readable _) =>
    apply respects_pure; [apply _|apply is_readable_pure]
  | |- respects _ (is_writable _) =>
    apply respects_pure; [apply _|apply is_writable_pure]
  | |- respects _ (_read_keyfile_data_from_file _) =>
    apply respects_pure; [apply _|apply read_keyfile_data_pure]
  | |- respects _ (try_except _ _ _) =>
    apply respects_try_except; try apply _; [|intros ?]
  | |- respects _ (mbind _ _) => apply respects_bind; try apply _; [|intros ?]
  | |- respects _ (if ?c then _ else _) => destruct c
  | |- respects _ (match ?c with _ => _ end) => destruct c
  end.

Lemma quiet_keeps_fs {A} self (m : M A) : respects (quiet self) m → respects (keeps fs) m.
Proof. intros H w r w' Hrun. by destruct (H w r w' Hrun). Qed.

Lemma legacy_key_keeps_fs L pw : respects (keeps fs) (legacy_key L pw).
Proof. unfold legacy_key. repeat keeps_step. Qed.

Lemma legacy_key_keeps_stdin L pw : respects (keeps stdin) (legacy_key L pw).
Proof. unfold legacy_key. repeat keeps_step. Qed.

Lemma decrypt_keyfile_data_keeps_fs L d pw cn :
  respects (keeps fs) (decrypt_keyfile_data L d pw cn).
Proof.
  unfold decrypt_keyfile_data, get_coldkey_password_from_environment, getpass.
  repeat first [apply legacy_key_keeps_fs | keeps_step].
Qed.


Lemma fails_clean_of_keeps {A} (m : M A) : respects (keeps fs) m → fails_clean m.
Proof. intros H w e w' Hrun. exact (H w _ w' Hrun). Qed.

Lemma fails_clean_bind {A B} (m : M A) (k : A → M B) :
  respects (keeps fs) m → (∀ a, fails_clean (k a)) → fails_clean (m ≫= k).
Proof.
  intros Hm Hk w e w'. unfold mbind, M_bind, bind.
  destruct (m w) as [[a|e1] w1] eqn:E.
  - intros Hka. rewrite (Hk a w1 e w' Hka). exact (Hm w _ w1 E).
  - intros [= _ <-]. exact (Hm w _ w1 E).
Qed.

Lemma write_file_raise p data e w w' : write_file p data w = (Raise e, w') → w' = w.
Proof.
  unfold write_file. unfold_M. rewrite stat_path_run.
  destruct (lookup_path (fs w) p) as [[d m|]|].
  - case_bool_decide; [discriminate|]. by intros [= _ <-].
  - by intros [= _ <-].
  - case_bool_decide; [by intros [= _ <-]|].
    destruct (check_parent p w) as [[[]|e1] w1] eqn:E1;
      apply check_parent_same in E1 as ->; [discriminate|]. by intros [= _ <-].
Qed.

Lemma write_then_chmod_fails_clean p data mode :
  fails_clean (write_file p data ;; chmod p mode).
Proof.
  intros w e w'. unfold mbind, M_bind, bind.
  destruct (write_file p data w) as [[[]|e1] w1] eqn:E.
  - apply write_file_ok in E as [m Hf]. unfold holds_file in Hf.
    unfold chmod. unfold_M. rewrite stat_path_run, Hf. discriminate.
  - apply write_file_raise in E as ->. by intros [= _ <-].
Qed.

Lemma write_keyfile_data_fails_clean self data overwrite :
  fails_clean (_write_keyfile_data_to_file self data overwrite).
Proof.
  unfold _write_keyfile_data_to_file.
  apply fails_clean_bind; [keeps_step|]. intros on_device.
  apply fails_clean_bind; [|intros; apply write_then_chmod_fails_clean].
  destruct (on_device && negb overwrite); [|keeps_step].
  unfold _may_overwrite, input. repeat keeps_step.
Qed.

Ltac fails_clean_step :=
  lazymatch goal with
  | |- fails_clean (_write_keyfile_data_to_file _ _ _) =>
    apply write_keyfile_data_fails_clean
  | |- fails_clean (raise _) => apply fails_clean_of_keeps; keeps_step
  | |- fails_clean (mbind _ _) => apply fails_clean_bind; [|intros ?]
  | |- fails_clean (if ?c then _ else _) => destruct c
  end.

(** X11. A call of [encrypt] or [decrypt] that raises, for whatever reason
    (a failed check, a wrong password, bytes that do not decode, a refused
    write), leaves every file as it was. *)
Theorem failed_encrypt_decrypt_changes_nothing (L : Libs) (self : keyfile)
    (password : option string) (w w' : world) (e : exn) :
  (encrypt L self password w = (Raise e, w') → fs w' = fs w)
  ∧ (decrypt L self password w = (Raise e, w') → fs w' = fs w).
Proof.
  split.
  - revert w e w'. change (fails_clean (encrypt L self password)). unfold encrypt.
    repeat first
      [ fails_clean_step
      | apply (quiet_keeps_fs self), encrypt_keyfile_data_quiet
      | keeps_step ].
  - revert w e w'. change (fails_clean (decrypt L self password)). unfold decrypt.
    repeat first
      [ fails_clean_step
      | apply decrypt_keyfile_data_keeps_fs
      | keeps_step ].
Qed.

Lemma failed_encrypt_decrypt_changes_nothing_witness :
  fs (decrypt double_libs coldkey (Some "wrong")
        (mkWorld {[ "/w" := Dir; "/w/coldkey" := File (b "gAAAAAtoken") 420 ]}
                 18 [] [] 0 [])).2
  = {[ "/w" := Dir; "/w/coldkey" := File (b "gAAAAAtoken") 420 ]}.
Proof.
  refine (proj2 (failed_encrypt_decrypt_changes_nothing double_libs coldkey (Some "wrong")
                   (mkWorld {[ "/w" := Dir; "/w/coldkey" := File (b "gAAAAAtoken") 420 ]}
                            18 [] [] 0 [])
                   _ (KeyFileError InvalidPassword)) _).
  vm_compute. reflexivity.
Defined.

Lemma keeps_stdin_of_same_console {A} (m : M A) :
  (∀ w r w', m w = (r, w') → same_console w w') → respects (keeps stdin) m.
Proof. intros H w r w' Hrun. by destruct (H w r w' Hrun). Qed.

Lemma keeps_stdin_of_grows {A} (m : M A) : respects grows m → respects (keeps stdin) m.
Proof. intros H w r w' Hrun. by destruct (H w r w' Hrun). Qed.

Lemma write_keyfile_data_keeps_stdin self data :
  respects (keeps stdin) (_write_keyfile_data_to_file self data true).
Proof.
  unfold _write_keyfile_data_to_file.
  keeps_step; [keeps_step|]. rewrite andb_false_r.
  keeps_step; [keeps_step|].
  keeps_step.
  - apply keeps_stdin_of_same_console. intros w r w'. apply write_file_same_console.
  - apply keeps_stdin_of_same_console. intros w r w'. apply chmod_same_console.
Qed.

Lemma encrypt_keyfile_data_keeps_stdin L data pw :
  respects (keeps stdin) (encrypt_keyfile_data L data (Some pw)).
Proof. unfold encrypt_keyfile_data. repeat keeps_step. Qed.

Lemma decrypt_keyfile_data_given L d pw cn w :
  decrypt_keyfile_data L d (Some pw) cn w = decrypt_from_try L d (Some pw) w.
Proof. by destruct cn. Qed.

Lemma decrypt_keyfile_data_keeps_stdin L d pw cn :
  respects (keeps stdin) (decrypt_keyfile_data L d (Some pw) cn).
Proof.
  intros w r w'. rewrite decrypt_keyfile_data_given. revert w r w'.
  change (respects (keeps stdin) (decrypt_from_try L d (Some pw))).
  unfold decrypt_from_try. cbv beta iota.
  repeat first [apply legacy_key_keeps_stdin | keeps_step].
Qed.

(** X12. With the password given as an argument, [set_keypair] with
    [overwrite=True], [encrypt], [decrypt] and [get_keypair] never read from
    the console: the lines waiting to be typed are the same after the call,
    whether it returns or raises. *)
Theorem given_password_never_prompts (L : Libs) (self : keyfile) (pw : string)
    (w : world) :
  (∀ keypair enc, stdin (set_keypair L self keypair enc true (Some pw) w).2 = stdin w)
  ∧ stdin (encrypt L self (Some pw) w).2 = stdin w
  ∧ stdin (decrypt L self (Some pw) w).2 = stdin w
  ∧ stdin (get_keypair L self (Some pw) w).2 = stdin w.
Proof.
  assert (Hrun : ∀ {A} (m : M A), respects (keeps stdin) m → stdin (m w).2 = stdin w).
  { intros A m Hm. destruct (m w) as [r w'] eqn:E. exact (Hm w r w' E). }
  split; [|split; [|split]].
  - intros keypair enc. apply Hrun. unfold set_keypair.
    keeps_step; [apply keeps_stdin_of_grows, make_dirs_grows|].
    keeps_step; [|apply write_keyfile_data_keeps_stdin].
    destruct enc; [apply encrypt_keyfile_data_keeps_stdin|keeps_step].
  - apply Hrun. unfold encrypt.
    repeat first [ apply write_keyfile_data_keeps_stdin
                 | apply encrypt_keyfile_data_keeps_stdin
                 | keeps_step ].
  - apply Hrun. unfold decrypt.
    repeat first [ apply write_keyfile_data_keeps_stdin
                 | apply decrypt_keyfile_data_keeps_stdin
                 | keeps_step ].
  - apply Hrun. unfold get_keypair.
    repeat first [ apply decrypt_keyfile_data_keeps_stdin | keeps_step ].
Qed.

(** *** Writing a new keyfile and reading it back *)








(** X15. A keyfile whose path has no directory part (a bare file name) cannot
    be written: [make_dirs] asks [os.makedirs] for the empty path, which
    raises [FileNotFoundError], so [set_keypair] fails before it has encoded,
    asked or written anything. *)
Theorem set_keypair_bare_file_name (L : Libs) (self : keyfile) (keypair : Keypair)
    (enc overwrite : bool) (password : option string) (w : world) :
  dirname (path self) = "" →
  fs w !! "" = None →
  make_dirs self w = (Raise FileNotFoundError, w)
  ∧ set_keypair L self keypair enc overwrite password w = (Raise FileNotFoundError, w).
Proof.
  intros Hd Hempty.
  assert (Hl : lookup_path (fs w) "" = None) by (unfold lookup_path; by cbn).
  assert (Hm : make_dirs self w = (Raise FileNotFoundError, w)).
  { unfold make_dirs. rewrite Hd. unfold path_exists. unfold_M.
    rewrite stat_path_run, Hl. unfold makedirs.
    change (makedirs_fuel (S (String.length "")) "" w) with (mkdir "" w).
    unfold mkdir. unfold_M. by rewrite stat_path_run, Hl. }
  split; [exact Hm|]. unfold set_keypair. unfold_M. by rewrite Hm.
Qed.

Lemma set_keypair_bare_file_name_witness :
  set_keypair double_libs {| path := "coldkey"; name := "" |} alice true true
    (Some "hunter2") empty_world
  = (Raise FileNotFoundError, empty_world).
Proof.
  apply (set_keypair_bare_file_name double_libs {| path := "coldkey"; name := "" |}
           alice true true (Some "hunter2") empty_world); reflexivity.
Defined.

(** *** The password loop *)

Lemma ask_password_loop_result (L : Libs) (fuel : nat) (w w' : world)
    (r : result string) :
  (length (stdin w) < fuel)%nat →
  ask_password_loop L fuel w = (r, w') →
  match r with
  | Ok p =>
    p ≠ "" ∧ policy_test L the_policy p = []
    ∧ ∃ evs, trace w' = trace w ++ evs
               ++ [Asked "Specify password for key encryption: " p;
                   Asked "Retype your password: " p]
  | Raise e => e = EOFError ∧ stdin w' = []
  end.
Proof.
  revert w. induction fuel as [|fuel IH]; intros w Hlen; [lia|].
  cbn [ask_password_loop]. unfold getpass at 1. unfold mbind at 1. unfold M_bind, bind.
  rewrite read_line_run.
  destruct (stdin w) as [|p rest] eqn:Hin; [by intros [= <- <-]|]. cbn [length] in Hlen.
  unfold mbind at 1. unfold M_bind, bind.
  assert (Hnext : ∀ w1 evs1, stdin w1 = rest ∨ (∃ x, rest = x :: stdin w1) →
            trace w1 = trace w ++ evs1 →
            ask_password_loop L fuel w1 = (r, w') →
            match r with
            | Ok p0 =>
              p0 ≠ "" ∧ policy_test L the_policy p0 = []
              ∧ ∃ evs, trace w' = trace w ++ evs
                         ++ [Asked "Specify password for key encryption: " p0;
                             Asked "Retype your password: " p0]
            | Raise e => e = EOFError ∧ stdin w' = []
            end).
  { intros w1 evs1 Hst Ht Hrun.
    assert (length (stdin w1) < fuel)%nat as Hl1.
    { destruct Hst as [->|[x ->]]; cbn in *; lia. }
    specialize (IH w1 Hl1 Hrun). destruct r as [p0|e]; [|done].
    destruct IH as (H1 & H2 & evs & H3). split; [done|]. split; [done|].
    exists (evs1 ++ evs). by rewrite H3, Ht, <- !app_assoc. }
  destruct (decide (p = "")) as [->|Hp].
  - cbn. apply (Hnext _ [Asked "Specify password for key encryption: " ""]);
      [by left|done].
  - rewrite (validate_password_run L p _ Hp).
    destruct (policy_test L the_policy p) as [|t ts] eqn:Hpol.
    + cbn [stdin answered]. destruct rest as [|retyped rest']; [by intros [= <- <-]|].
      cbv zeta. case_bool_decide as Heq.
      * subst retyped. intros [= <- <-]. split; [done|]. split; [done|].
        exists []. cbn. by rewrite <- app_assoc.
      * eapply Hnext; [right; by eexists|]. cbn. by rewrite <- !app_assoc.
    + eapply Hnext; [by left|]. cbn. by rewrite <- !app_assoc.
Qed.

(** X16. What [ask_password_to_encrypt] returns is never empty, passes the
    policy, and was typed twice in a row, at the password prompt and at the
    retype prompt, as the last two things asked.  The only way the loop ends
    otherwise is [EOFError], once the input is used up. *)
Theorem ask_password_returns_confirmed (L : Libs) (w w' : world) (r : result string) :
  ask_password_to_encrypt L w = (r, w') →
  match r with
  | Ok p =>
    p ≠ "" ∧ policy_test L (from_names "0.20" 10 6) p = []
    ∧ ∃ evs, trace w' = trace w ++ evs
               ++ [Asked "Specify password for key encryption: " p;
                   Asked "Retype your password: " p]
  | Raise e => e = EOFError ∧ stdin w' = []
  end.
Proof.
  unfold ask_password_to_encrypt. apply ask_password_loop_result. lia.
Qed.

Lemma ask_password_returns_confirmed_witness :
  (ask_password_to_encrypt double_libs
     (mkWorld ∅ 18 ["pass"; "asdury3294y"; "typo"; "asdury3294y"; "asdury3294y"] [] 0 [])).1
  = Ok "asdury3294y"
  ∧ policy_test double_libs (from_names "0.20" 10 6) "asdury3294y" = [].
Proof.
  pose proof (ask_password_returns_confirmed double_libs
                (mkWorld ∅ 18 ["pass"; "asdury3294y"; "typo"; "asdury3294y"; "asdury3294y"]
                         [] 0 []) _ _ (surjective_pairing _)) as H.
  split; [reflexivity|]. exact (proj1 (proj2 H)).
Defined.

(** *** Encoding and decoding a keypair *)

Lemma decode_encode text :
  utf8_valid (encode text) = true → decode (encode text) = Ok text.
Proof.
  intros H. unfold decode. rewrite H. unfold encode.
  by rewrite string_of_list_byte_of_string.
Qed.

Lemma dict_json_data keypair : dict (JObj (json_data keypair)) = Ok (record_dict keypair).
Proof. reflexivity. Qed.

(** X17. Decoding what was encoded, with a JSON library that reads back what
    it wrote: the keypair is rebuilt from its seed if it has one (as ["0x"]
    and the hex digits), else from its mnemonic, else from its address alone;
    the public key is never used.  A keypair that has only a public key is
    encoded without complaint and cannot be decoded: [KeyFileError]. *)
Theorem decode_after_encode (L : Libs) (keypair : Keypair) :
  let text := json_dumps L (JObj (json_data keypair)) in
  utf8_valid (encode text) = true →
  json_loads L text = Ok (JObj (json_data keypair)) →
  deserialize_keypair_from_keyfile_data L (serialized_keypair_to_keyfile_data L keypair)
  = match seed_text keypair with
    | Some seed => create_from_seed L (JStr seed)
    | None =>
      match truthy_str (mnemonic keypair) with
      | Some phrase => create_from_mnemonic L (JStr phrase)
      | None =>
        match truthy_str (ss58_address keypair) with
        | Some address => Keypair_ss58_address L (JStr address)
        | None => Raise (KeyFileError (NoKeypairFromDict (record_dict keypair)))
        end
      end
    end.
Proof.
  intros text Hutf Hload.
  unfold deserialize_keypair_from_keyfile_data, serialized_keypair_to_keyfile_data.
  fold text. rewrite (decode_encode text Hutf).
  unfold load_keyfile_dict. cbn [mbind result_bind]. rewrite Hload.
  cbn [mbind result_bind]. rewrite dict_json_data.
  unfold record_dict, json_data, seed_text, present.
  cbn [fmap list_fmap fst snd].
  destruct (seed_hex keypair) as [[[|c s]|[|x l]]|]; try reflexivity;
    (destruct (truthy_str (mnemonic keypair)); [reflexivity|]);
    (destruct (truthy_str (ss58_address keypair)); reflexivity).
Qed.

Lemma decode_after_encode_witness :
  deserialize_keypair_from_keyfile_data alice_libs
    (serialized_keypair_to_keyfile_data alice_libs alice)
  = Ok (mkKeypair None None None (Some (inl "0xe5be")) None).
Proof.
  refine (decode_after_encode alice_libs alice _ _); reflexivity.
Defined.

(* ========================================================================= *)
(** * Properties of the miner's text handling *)

Lemma append_three_roles acc message :
  (a1 ← append_if_role "system" acc message;
   a2 ← append_if_role "assistant" a1 message;
   append_if_role "user" a2 message)
  = (line ← message_line message; Ok (acc +:+ line)).
Proof.
  unfold append_if_role, message_line.
  destruct (getitem message "role") as [role|e]; [|reflexivity].
  cbn [mbind result_bind].
  destruct (getitem message "content") as [content|e];
    destruct (decide (role = "system")) as [->|H1];
    try (destruct (decide (role = "assistant")) as [->|H2]);
    try (destruct (decide (role = "user")) as [->|H3]);
    rewrite ?(bool_decide_eq_false_2 _ H1), ?(bool_decide_eq_false_2 _ H2),
            ?(bool_decide_eq_false_2 _ H3);
    cbn; rewrite ?string_app_nil_r; reflexivity.
Qed.

Lemma process_history_from_step acc message history :
  process_history_from acc (message :: history)
  = (line ← message_line message; process_history_from (acc +:+ line) history).
Proof.
  cbn [process_history_from].
  pose proof (append_three_roles acc message) as H.
  destruct (append_if_role "system" acc message) as [a1|e1]; cbn [mbind result_bind] in *.
  - destruct (append_if_role "assistant" a1 message) as [a2|e2];
      cbn [mbind result_bind] in *.
    + rewrite H. by destruct (message_line message).
    + by destruct (message_line message).
  - by destruct (message_line message).
Qed.

Lemma process_history_from_acc acc history :
  process_history_from acc history
  = (text ← process_history_from "" history; Ok (acc +:+ text)).
Proof.
  revert acc. induction history as [|message history IH]; intros acc.
  - cbn. by rewrite string_app_nil_r.
  - rewrite !process_history_from_step.
    destruct (message_line message) as [line|e]; [|reflexivity].
    cbn [mbind result_bind]. rewrite (IH (acc +:+ line)), (IH ("" +:+ line)).
    destruct (process_history_from "" history) as [text|e]; [|reflexivity].
    cbn [mbind result_bind]. by rewrite string_app_nil_l, string_app_assoc.
Qed.

Lemma process_history_cons message history :
  _process_history (message :: history)
  = (line ← message_line message; rest ← _process_history history; Ok (line +:+ rest)).
Proof.
  unfold _process_history. cbv zeta. rewrite process_history_from_step.
  destruct (message_line message) as [line|e]; [|reflexivity]. cbn [mbind result_bind].
  by rewrite string_app_nil_l, process_history_from_acc.
Qed.

(** X18. The history text is the lines of the messages one after the other:
    a message with role [system], [assistant] or [user] gives the line
    "role: content" and a newline; a message with any other role gives
    nothing and its content is not looked at; a message without a role, or
    one of the three roles without content, makes the whole call raise
    [KeyError].  So the text of two histories joined is the two texts
    joined. *)
Theorem process_history_lines (message : gmap string string)
    (history history' : list (gmap string string)) :
  _process_history (message :: history)
    = (line ← message_line message; rest ← _process_history history; Ok (line +:+ rest))
  ∧ _process_history (history ++ history')
    = (text ← _process_history history; text' ← _process_history history';
       Ok (text +:+ text'))
  ∧ (∀ role, message !! "role" = Some role →
       role ≠ "system" → role ≠ "assistant" → role ≠ "user" →
       _process_history (message :: history) = _process_history history)
  ∧ (message !! "role" = None →
       _process_history (message :: history) = Raise (OtherError "KeyError")).
Proof.
  unfold _process_history. cbv zeta.
  pose proof process_history_cons as Hcons. unfold _process_history in Hcons.
  cbv zeta in Hcons.
  split; [apply Hcons|]. split; [|split].
  - induction history as [|m h IH].
    + cbn [app]. destruct (process_history_from "" history'); reflexivity.
    + rewrite <- app_comm_cons, !Hcons.
      destruct (message_line m) as [line|e]; [|reflexivity]. cbn [mbind result_bind].
      rewrite IH. destruct (process_history_from "" h) as [text|e]; [|reflexivity].
      cbn [mbind result_bind].
      destruct (process_history_from "" history') as [text'|e]; [|reflexivity].
      cbn [mbind result_bind]. by rewrite string_app_assoc.
  - intros role Hrole H1 H2 H3. rewrite Hcons. unfold message_line, getitem.
    rewrite Hrole. cbn [mbind result_bind].
    rewrite !bool_decide_eq_false_2 by done. cbn [orb mbind result_bind].
    by destruct (process_history_from "" history).
  - intros Hrole. rewrite Hcons. unfold message_line, getitem. by rewrite Hrole.
Qed.

Lemma process_history_lines_witness :
  _process_history (drop 1 chat) = _process_history (drop 2 chat)
  ∧ _process_history chat
    = Ok ("system: Be brief." +:+ newline +:+ "user: Hi" +:+ newline).
Proof.
  split.
  - refine (proj1 (proj2 (proj2 (process_history_lines
                      {[ "role" := "tool"; "name" := "search" ]}
                      (drop 2 chat) []))) "tool" _ _ _ _);
      first [by vm_compute | discriminate].
  - reflexivity.
Defined.

Lemma contains_char_app c s1 s2 :
  contains_char c (s1 +:+ s2) = contains_char c s1 || contains_char c s2.
Proof.
  induction s1 as [|a s1 IH]; [done|].
  rewrite string_app_cons. cbn [contains_char]. by rewrite IH, orb_assoc.
Qed.

Lemma message_line_colon message line :
  message_line message = Ok line → line = "" ∨ contains_char ":" line = true.
Proof.
  unfold message_line. destruct (getitem message "role") as [role|e]; [|done].
  cbn [mbind result_bind]. destruct (_ || _); [|intros [= <-]; by left].
  destruct (getitem message "content") as [content|e]; [|done].
  intros [= <-]. right. rewrite contains_char_app.
  apply orb_true_iff. right. reflexivity.
Qed.

(** A history text is empty or has a colon in it. *)
Lemma process_history_colon history text :
  _process_history history = Ok text → text = "" ∨ contains_char ":" text = true.
Proof.
  revert text. induction history as [|m h IH]; intros text.
  - intros [= <-]. by left.
  - rewrite process_history_cons.
    destruct (message_line m) as [line|e] eqn:El; [|done]. cbn [mbind result_bind].
    destruct (_process_history h) as [rest|e]; [|done]. intros [= <-].
    destruct (message_line_colon m line El) as [->|Hl].
    + rewrite string_app_nil_l. by apply IH.
    + right. rewrite contains_char_app, Hl. reflexivity.
Qed.

Lemma split_char_segments sep s :
  split_char sep s ≠ []
  ∧ Forall (λ seg, contains_char sep seg = false) (split_char sep s).
Proof.
  induction s as [|c s [Hne Hall]]; cbn [split_char].
  - split; [done|]. by repeat constructor.
  - case_bool_decide as Hc.
    + split; [done|]. by constructor.
    + destruct (split_char sep s) as [|seg segs]; [done|].
      split; [done|]. inversion Hall as [|?? Hseg Hsegs]; subst.
      constructor; [|done]. cbn [contains_char].
      by rewrite (bool_decide_eq_false_2 _ Hc).
Qed.

Lemma last_Forall {A} (P : A → Prop) (l : list A) (d : A) :
  l ≠ [] → Forall P l → P (List.last l d).
Proof.
  induction l as [|x l IH]; [done|]. intros _ Hall.
  inversion Hall as [|?? Hx Hl]; subst. destruct l as [|y l]; [done|].
  apply IH; done.
Qed.

Lemma prefix_contains_char c old s :
  String.prefix old s = true → contains_char c old = true → contains_char c s = true.
Proof.
  revert s. induction old as [|a old IH]; intros s; [done|].
  destruct s as [|a' s]; [done|]. cbn [String.prefix contains_char].
  destruct (ascii_dec a a') as [->|]; [|done].
  intros Hp. destruct (bool_decide (a' = c)); [done|]. cbn. by apply IH.
Qed.

Lemma replace_scan_absent c old new s :
  contains_char c old = true → contains_char c s = false →
  replace_scan old new 0 s = s.
Proof.
  intros Hold. induction s as [|a s IH]; [done|].
  intros Hs. cbn [replace_scan].
  destruct (String.prefix old (String a s)) eqn:Hp.
  - by rewrite (prefix_contains_char c _ _ Hp Hold) in Hs.
  - cbn [contains_char] in Hs. apply orb_false_iff in Hs as [_ Hs]. by rewrite IH.
Qed.

Lemma concat_empty_cons x l : String.concat "" (x :: l) = x +:+ String.concat "" l.
Proof. destruct l; cbn [String.concat]; [by rewrite string_app_nil_r|done]. Qed.

Lemma concat_chars s : String.concat "" ((λ c, c +:+ "") <$> chars s) = s.
Proof.
  induction s as [|c s IH]; [done|]. cbn [chars].
  destruct (chars s) as [|g gs].
  - cbn in IH. subst s. reflexivity.
  - rewrite fmap_cons, concat_empty_cons, string_app_nil_r in IH.
    destruct (starts_with_cont s);
      rewrite ?fmap_cons, ?concat_empty_cons, ?string_app_nil_r;
      rewrite ?string_app_cons, ?string_app_nil_l; by rewrite IH.
Qed.

Lemma replace_empty_pattern s : replace s "" "" = s.
Proof. unfold replace. cbn [bool_decide decide_rel]. apply concat_chars. Qed.

(** X19. [forward] returns exactly the text after the last colon of what the
    model generated (all of it when there is no colon): its
    [.replace(history, "")] never removes anything, because a history text
    that is not empty has a colon in it and the text after the last colon
    has none.  So the answer never contains a colon. *)
Theorem forward_text_after_last_colon (pipe : string → result string)
    (messages : list (gmap string string)) :
  forward pipe messages
    = (history ← _process_history messages;
       generated_text ← pipe history;
       Ok (List.last (split_char ":" generated_text) ""))
  ∧ ∀ answer, forward pipe messages = Ok answer → contains_char ":" answer = false.
Proof.
  assert (Hlast : ∀ g, contains_char ":" (List.last (split_char ":" g) "") = false).
  { intros g. destruct (split_char_segments ":" g) as [Hne Hall].
    by apply (last_Forall (λ seg, contains_char ":" seg = false)). }
  assert (Heq : forward pipe messages
            = (history ← _process_history messages;
               generated_text ← pipe history;
               Ok (List.last (split_char ":" generated_text) ""))).
  { unfold forward.
    destruct (_process_history messages) as [history|e] eqn:Eh; [|reflexivity].
    cbn [mbind result_bind]. destruct (pipe history) as [g|e]; [|reflexivity].
    cbn [mbind result_bind]. f_equal.
    destruct (process_history_colon _ _ Eh) as [->|Hc].
    - apply replace_empty_pattern.
    - unfold replace. rewrite bool_decide_eq_false_2 by (intros ->; discriminate).
      by apply (replace_scan_absent ":"). }
  split; [exact Heq|]. rewrite Heq. intros answer.
  destruct (_process_history messages) as [history|e]; [|done].
  cbn [mbind result_bind]. destruct (pipe history) as [g|e]; [|done].
  intros [= <-]. apply Hlast.
Qed.

(* ========================================================================= *)
(** * Properties of the mock keyfile *)

(** X20. After any series of [set_keypair] calls the mock hands out the
    keypair of the last call, whatever flags and passwords the calls carried
    and whatever password is given to [get_keypair]; its [data] is [None]
    from the first call on, its path never changes, and [decrypt] leaves it
    as it is. *)
Theorem mock_keeps_last_keypair (self : Mock.Mockkeyfile) (calls : list mock_call)
    (password : option string) :
  Mock.get_keypair (mock_after self calls) password
    = match last calls with
      | Some c => Some (call_keypair c)
      | None => Mock._mock_keypair self
      end
  ∧ Mock.data (mock_after self calls)
    = (if calls is [] then Mock._mock_data self else None)
  ∧ Mock.path (mock_after self calls) = Mock.path self
  ∧ Mock.decrypt (mock_after self calls) password = Ok (mock_after self calls).
Proof.
  revert self. induction calls as [|c calls IH]; intros self.
  - repeat split.
  - unfold mock_after in *. cbn [foldl].
    destruct (IH (Mock.set_keypair self (call_keypair c) (call_encrypt c)
                    (call_overwrite c) (call_password c))) as (H1 & H2 & H3 & H4).
    split; [|split; [|split]].
    + rewrite H1. destruct calls as [|c' calls]; [reflexivity|].
      rewrite last_cons_cons.
      destruct (last (c' :: calls)) eqn:E; [reflexivity|].
      by apply last_None in E.
    + rewrite H2. by destruct calls.
    + by rewrite H3.
    + reflexivity.
Qed.

(* ========================================================================= *)
(** * Overwriting an existing keyfile *)

(** X21. [set_keypair] without encryption on a file that exists and may be
    written: with [overwrite=False] and the answer [y], the question is asked
    once and the file then holds the encoded keypair with mode owner read and
    write; with [overwrite=True] the same happens without a question. *)
Theorem set_keypair_replaces_file (L : Libs) (self : keyfile) (keypair : Keypair)
    (password : option string) (w : world) (data0 : bytes) (mode : Z) :
  holds_file w (path self) data0 mode →
  Z.land mode S_IWUSR ≠ 0%Z →
  lookup_path (fs w) (dirname (path self)) = Some Dir →
  let data := serialized_keypair_to_keyfile_data L keypair in
  set_keypair L self keypair false true password w = (Ok tt, set_file w (path self) data)
  ∧ ∀ rest, stdin w = "y" :: rest →
      set_keypair L self keypair false false password w
      = (Ok tt, set_file (answered w (overwrite_prompt self) "y" rest) (path self) data).
Proof.
  intros Hf Hw Hd data. subst data. split.
  - unfold set_keypair. unfold_M. rewrite (make_dirs_present _ _ Hd). cbv beta iota zeta.
    rewrite (write_overwrite_run self _ data0 mode w Hf).
    by rewrite bool_decide_eq_true_2.
  - intros rest Hin. unfold set_keypair. unfold_M. rewrite (make_dirs_present _ _ Hd).
    cbv beta iota zeta.
    unfold _write_keyfile_data_to_file. unfold_M.
    unfold holds_file in Hf. rewrite exists_on_device_run, Hf. cbn [andb negb].
    rewrite may_overwrite_run, Hin. cbn [bool_decide decide_rel negb].
    rewrite bool_decide_eq_true_2 by done. cbn [negb].
    rewrite (write_file_run_existing _ _ data0 mode) by exact Hf.
    rewrite bool_decide_eq_true_2 by done.
    unfold chmod. unfold_M. rewrite stat_path_run. cbn [fs answered].
    rewrite lookup_path_insert_eq by (by rewrite Hf).
    rewrite write_node_run. cbn [fs umask stdin environ urandom trace].
    unfold set_file, answered. cbn [fs umask stdin environ urandom trace].
    by rewrite insert_insert_eq.
Qed.

Lemma set_keypair_replaces_file_witness :
  set_keypair double_libs coldkey alice false false None (world_with_coldkey ["y"])
  = (Ok tt,
     set_file (answered (world_with_coldkey ["y"]) (overwrite_prompt coldkey) "y" [])
              "/w/coldkey" (b "{}")).
Proof.
  refine (proj2 (set_keypair_replaces_file double_libs coldkey alice None
                   (world_with_coldkey ["y"]) (b "0x01") 420 _ _ _) [] _);
    first [reflexivity | discriminate].
Defined.

(** X22. [set_keypair] does not look at the write permission: on a file
    without the owner-write bit, with the overwrite granted, the [open] for
    writing raises [PermissionError], not [KeyFileError], and the file is as
    before. *)
Theorem set_keypair_read_only_file (L : Libs) (self : keyfile) (keypair : Keypair)
    (password : option string) (w : world) (data0 : bytes) (mode : Z) :
  holds_file w (path self) data0 mode →
  Z.land mode S_IWUSR = 0%Z →
  lookup_path (fs w) (dirname (path self)) = Some Dir →
  set_keypair L self keypair false true password w = (Raise PermissionError, w).
Proof.
  intros Hf Hw Hd. unfold set_keypair. unfold_M. rewrite (make_dirs_present _ _ Hd).
  cbv beta iota zeta. rewrite (write_overwrite_run self _ data0 mode w Hf).
  by rewrite bool_decide_eq_false_2 by tauto.
Qed.

Lemma set_keypair_read_only_file_witness :
  set_keypair double_libs coldkey alice false true None
    (mkWorld {[ "/w" := Dir; "/w/coldkey" := File (b "0x01") 256 ]} 18 [] [] 0 [])
  = (Raise PermissionError,
     mkWorld {[ "/w" := Dir; "/w/coldkey" := File (b "0x01") 256 ]} 18 [] [] 0 []).
Proof.
  apply (set_keypair_read_only_file double_libs coldkey alice None _ (b "0x01") 256);
    reflexivity.
Defined.

(* ========================================================================= *)
(** * Encrypting a keyfile and decrypting it again *)

Lemma set_file_usable w p data :
  lookup_path (fs w) p ≠ Some Dir → usable_file (set_file w p data) p data.
Proof.
  intros H. exists (Z.lor S_IRUSR S_IWUSR). split; [|done].
  unfold holds_file, set_file. cbn [fs]. by apply lookup_path_insert_eq.
Qed.

(** [encrypt] with a given password on a usable file without a marker. *)
Lemma encrypt_plaintext_run L self pw w data keypair :
  usable_file w (path self) data →
  classify data = Plaintext →
  deserialize_keypair_from_keyfile_data L data = Ok keypair →
  let plain := serialized_keypair_to_keyfile_data L keypair in
  encrypt L self (Some pw) w
  = match vault_encrypt L pw (urandom w) plain with
    | Ok sealed => (Ok tt, set_file (after_vault_encrypt w pw plain) (path self) sealed)
    | Raise e => (Raise e, after_vault_encrypt w pw plain)
    end.
Proof.
  intros Hu Hc Hk plain.
  destruct (usable_file_checks self w data Hu) as (He & Hr & Hw & Hread).
  destruct Hu as (mode & Hf & _ & Hmw).
  unfold encrypt. unfold_M. rewrite He. cbn [negb]. rewrite Hr. cbn [negb].
  rewrite Hw. cbn [negb]. rewrite Hread.
  rewrite is_encrypted_classify, bool_decide_eq_false_2 by (rewrite Hc; tauto).
  cbn [negb]. rewrite Hk. cbv beta iota zeta. fold plain.
  rewrite encrypt_keyfile_data_given.
  destruct (vault_encrypt L pw (urandom w) plain) as [sealed|e]; [|reflexivity].
  rewrite (write_overwrite_run self sealed data mode (after_vault_encrypt w pw plain) Hf).
  by rewrite bool_decide_eq_true_2.
Qed.

(** X23. Encrypting a plain keyfile with a password and decrypting it with
    the same one, when the vault seals the bytes under the Vault marker and
    opens them again: after [encrypt] the file holds the sealed bytes and
    [is_encrypted] says so; after [decrypt] it holds the record form of what
    the vault gave back.  Both calls return, neither asks anything, and the
    mode ends as owner read and write. *)
Theorem encrypt_then_decrypt (L : Libs) (self : keyfile) (pw : string) (w : world)
    (data sealed : bytes) (keypair keypair' : Keypair) (opened : pyobj) :
  usable_file w (path self) data →
  classify data = Plaintext →
  deserialize_keypair_from_keyfile_data L data = Ok keypair →
  let plain := serialized_keypair_to_keyfile_data L keypair in
  vault_encrypt L pw (urandom w) plain = Ok sealed →
  classify sealed = Vault →
  vault_load L pw sealed = Ok opened →
  deserialize_keypair_from_keyfile_data L (normalize L opened) = Ok keypair' →
  let w1 := set_file (after_vault_encrypt w pw plain) (path self) sealed in
  encrypt L self (Some pw) w = (Ok tt, w1)
  ∧ is_encrypted self w1 = (Ok true, w1)
  ∧ decrypt L self (Some pw) w1
    = (Ok tt, set_file (add_events w1 [VaultLoad pw sealed]) (path self)
                (serialized_keypair_to_keyfile_data L keypair')).
Proof.
  intros Hu Hc Hk plain Hseal Hcs Hopen Hk' w1.
  assert (Hnd : lookup_path (fs w) (path self) ≠ Some Dir).
  { destruct Hu as (mode & Hf & _). unfold holds_file in Hf. by rewrite Hf. }
  pose proof (set_file_usable (after_vault_encrypt w pw plain) (path self) sealed Hnd)
    as Hu1. fold w1 in Hu1.
  split; [|split].
  - rewrite (encrypt_plaintext_run L self pw w data keypair Hu Hc Hk). fold plain.
    by rewrite Hseal.
  - rewrite is_encrypted_run. destruct Hu1 as (mode & Hf & Hr & _).
    unfold holds_file in Hf. rewrite Hf. rewrite bool_decide_eq_true_2 by done.
    rewrite is_encrypted_classify, bool_decide_eq_true_2 by (by rewrite Hcs).
    reflexivity.
  - destruct (usable_file_checks self w1 sealed Hu1) as (He & Hr & Hw & Hread).
    destruct Hu1 as (mode & Hf & _ & Hmw).
    unfold decrypt. unfold_M. rewrite He. cbn [negb]. rewrite Hr. cbn [negb].
    rewrite Hw. cbn [negb]. rewrite Hread.
    rewrite is_encrypted_classify, bool_decide_eq_true_2 by (by rewrite Hcs).
    rewrite decrypt_with_password, Hcs. cbv zeta. rewrite Hopen, Hk'.
    rewrite (write_overwrite_run self _ sealed mode (add_events w1 [VaultLoad pw sealed]))
      by exact Hf.
    by rewrite bool_decide_eq_true_2.
Qed.

Lemma encrypt_then_decrypt_witness :
  (decrypt vault_libs coldkey (Some "hunter2")
     (encrypt vault_libs coldkey (Some "hunter2") world_with_record).2).1 = Ok tt.
Proof.
  assert (Hu : usable_file world_with_record "/w/coldkey" (b "{}")).
  { exists 420%Z. split; [reflexivity|]. split; discriminate. }
  destruct (encrypt_then_decrypt vault_libs coldkey "hunter2" world_with_record
              (b "{}") (b "$ANSIBLE_VAULT;{}")
              (mkKeypair None None None (Some (inl "0xe5be")) None)
              (mkKeypair None None None (Some (inl "0xe5be")) None)
              (PBytes (b "{}")) Hu eq_refl eq_refl eq_refl eq_refl eq_refl eq_refl)
    as (H1 & _ & H3).
  rewrite H1. cbn [snd]. by rewrite H3.
Defined.

(* ========================================================================= *)
(** * The shape of the Legacy key *)

Lemma b64_char_urlsafe m : (m < 64)%N → is_urlsafe (b64_char m) = true.
Proof.
  intros H.
  assert (Hall : forallb (λ k, is_urlsafe (b64_char (N.of_nat k))) (seq 0 64) = true)
    by (vm_compute; reflexivity).
  rewrite forallb_forall in Hall. specialize (Hall (N.to_nat m)).
  rewrite N2Nat.id in Hall. apply Hall. apply in_seq. lia.
Qed.

Lemma sextet_urlsafe n i : is_urlsafe (sextet n i) = true.
Proof.
  unfold sextet. apply b64_char_urlsafe.
  change 63%N with (N.ones 6). rewrite N.land_ones.
  apply N.mod_lt. discriminate.
Qed.

(** Lists three elements at a time. *)
Lemma by_threes {A} (P : list A → Prop) :
  P [] → (∀ x, P [x]) → (∀ x y, P [x; y]) →
  (∀ x y z l, P l → P (x :: y :: z :: l)) →
  ∀ l, P l.
Proof.
  intros H0 H1 H2 H3 l.
  assert (H : P l ∧ (∀ x, P (x :: l)) ∧ (∀ x y, P (x :: y :: l))).
  { induction l as [|a l (IH0 & IH1 & IH2)]; [by repeat split|].
    split; [apply IH1|]. split; [intros x; apply IH2|]. intros x y. by apply H3. }
  apply H.
Qed.

Lemma urlsafe_b64encode_alphabet data :
  Forall (λ x, is_urlsafe x = true) (urlsafe_b64encode data).
Proof.
  induction data as [|x|x y|x y z l IH] using by_threes; cbn [urlsafe_b64encode].
  - constructor.
  - repeat constructor; apply sextet_urlsafe.
  - repeat constructor; apply sextet_urlsafe.
  - repeat (constructor; [apply sextet_urlsafe|]). exact IH.
Qed.

Lemma urlsafe_b64encode_length data :
  length (urlsafe_b64encode data) = (4 * ((length data + 2) / 3))%nat.
Proof.
  induction data as [|x|x y|x y z l IH] using by_threes; try reflexivity.
  cbn [urlsafe_b64encode length]. rewrite IH.
  replace (S (S (S (length l))) + 2)%nat with (length l + 2 + 1 * 3)%nat by lia.
  rewrite Nat.div_add by lia. lia.
Qed.

(** X24. The key handed to the token cipher on the Legacy path is the
    URL-safe base64 of what the key derivation returned; when that is the 32
    bytes asked for, the key is 44 bytes long, every byte is a letter, a
    digit, [-], [_] or [=], and its last byte is the padding [=]. *)
Theorem legacy_key_shape (L : Libs) (pw : string) (w : world) (derived : bytes) :
  pbkdf2_hmac L SHA256 __SALT 32 10000000 (encode pw) = Ok derived →
  length derived = 32%nat →
  ∃ key, (legacy_key L pw w).1 = Ok key
    ∧ key = urlsafe_b64encode derived
    ∧ length key = 44%nat
    ∧ Forall (λ x, is_urlsafe x = true) key
    ∧ last key = Some "="%byte.
Proof.
  intros Hk Hlen. exists (urlsafe_b64encode derived). split; [|split; [done|split; [|split]]].
  - unfold legacy_key. unfold_M. cbn -[urlsafe_b64encode __SALT]. by rewrite Hk.
  - by rewrite urlsafe_b64encode_length, Hlen.
  - apply urlsafe_b64encode_alphabet.
  - do 32 (destruct derived as [|? derived]; [by simpl in Hlen|]).
    destruct derived; [reflexivity|by simpl in Hlen].
Qed.

Lemma legacy_key_shape_witness :
  ∃ key, (legacy_key double_libs "hunter2" empty_world).1 = Ok key ∧ length key = 44%nat.
Proof.
  destruct (legacy_key_shape double_libs "hunter2" empty_world
              (take 32 (encode "hunter2" ++ __SALT)) eq_refl eq_refl)
    as (key & H1 & _ & H3 & _).
  exists key. by split.
Defined.
